(** * Staking reward calculator: interest formulas and staking constraints

    A shallow embedding of the two library files of the calculator,
    [calculations.ts] (interest formulas, APR/APY conversion, compounding
    cadence) and [constraints.ts] (the static table of per-coin staking
    constraints with its lookup and validation predicates).

    ** Numbers

    A TypeScript [number] is an IEEE-754 binary64 value.  The code is written
    once, over an abstract carrier with the arithmetic and the comparisons the
    source uses (class [Number]), and over [Math.pow] (class [Power]):

    - [binary64] instantiates [Number] with Rocq's primitive floats: the
      additions, products, quotients and comparisons are the ones JavaScript
      performs, rounding, NaN and infinities included, and the definitions
      run under [vm_compute].  ECMAScript leaves [Math.pow] up to the
      implementation ("implementation-approximated"), so [binary64] has no
      [Power] instance.
    - [reals] instantiates both classes with the real numbers: arithmetic
      without rounding, which is how the specification reads the quantities
      ("positive real number", "real-valued exponent").  A real result is
      what JavaScript computes up to rounding as long as no divisor is zero
      and [Math.pow] stays in its real domain, and the statements made in
      exact arithmetic carry these conditions.  What depends on the exact
      value of a result (linearity, a zero interest, monotonicity) is stated
      in exact arithmetic and says so: binary64 rounds, a rate below 1e-16
      is absorbed in [1 + rate] and a product below 1e-324 becomes 0.

    ** Strings

    Symbols and cadence names are [string]s of 8-bit characters;
    [toUpperCase] maps the letters a-z to A-Z and leaves every other
    character alone (the registry's symbols are ASCII letters). *)

From Stdlib Require Import ZArith List Bool String Ascii.
From Stdlib Require Import Reals Lra Lia.
From Stdlib Require Import Floats.
From Stdlib Require Import Sorting.Mergesort Sorting.Sorted Sorting.Permutation Orders.
Import ListNotations.

Set Implicit Arguments.
Open Scope string_scope.
Set Warnings "-inexact-float".

(** ** The arithmetic of [number] *)

Declare Scope number_scope.
Delimit Scope number_scope with num.

Class Number (N : Type) : Type := {
  ofZ : Z -> N;             (* an integer literal *)
  add : N -> N -> N;        (* a + b *)
  sub : N -> N -> N;        (* a - b *)
  mul : N -> N -> N;        (* a * b *)
  div : N -> N -> N;        (* a / b *)
  geb : N -> N -> bool;     (* a >= b *)
  leb : N -> N -> bool      (* a <= b *)
}.

Class Power (N : Type) : Type := {
  Math_pow : N -> N -> N    (* Math.pow(base, exponent) *)
}.

Notation "# z" := (ofZ z%Z) (at level 1, format "# z") : number_scope.
Infix "+" := add : number_scope.
Infix "-" := sub : number_scope.
Infix "*" := mul : number_scope.
Infix "/" := div : number_scope.
Infix ">=?" := geb (at level 70, no associativity) : number_scope.
Infix "<=?" := leb : number_scope.

(** A decimal literal [n/d], as in [0.01]: the quotient of two integers, which
    binary64 division rounds to the double nearest to the decimal, the value
    the JavaScript parser gives the literal. *)
Definition decimal {N} `{Number N} (n d : Z) : N := (#n / #d)%num.

(** *** binary64 *)

(** An integer literal: the double nearest to the integer. *)
Definition float_ofZ (z : Z) : float :=
  SF2Prim (binary_normalize prec emax z 0 false).

#[export] Instance binary64 : Number float := {
  ofZ := float_ofZ;
  add := PrimFloat.add;
  sub := PrimFloat.sub;
  mul := PrimFloat.mul;
  div := PrimFloat.div;
  geb := fun a b => PrimFloat.leb b a;
  leb := PrimFloat.leb
}.

(** *** Exact real arithmetic *)

Definition Rleb (a b : R) : bool := if Rle_dec a b then true else false.

#[export] Instance reals : Number R := {
  ofZ := IZR;
  add := Rplus;
  sub := Rminus;
  mul := Rmult;
  div := Rdiv;
  geb := fun a b => Rleb b a;
  leb := Rleb
}.

(** [Math.pow] on the reals.  ECMAScript: a zero exponent gives 1 whatever the
    base; a positive base gives base^exponent; a zero base gives 0 for a
    positive exponent (and +Infinity for a negative one); a negative base
    gives (-1)^n |base|^n for an integral exponent n (and NaN otherwise).
    Where JavaScript answers NaN or an infinity there is no real number to
    return and the model returns 0; every statement about the reals below
    carries the conditions (a positive base, a non-negative base with a
    positive exponent, or a natural exponent) that keep it away from these
    points. *)
Definition real_pow (x y : R) : R :=
  if Req_dec_T y 0 then 1
  else if Rlt_dec 0 x then Rpower x y
  else if Req_dec_T x 0 then 0
  else if Req_dec_T (frac_part y) 0
       then (if Z.even (Int_part y) then Rpower (- x) y else - Rpower (- x) y)
       else 0.

#[export] Instance reals_pow : Power R := { Math_pow := real_pow }.

(** ** calculations.ts *)

Record StakingParameters (N : Type) : Type := {
  principal : N;                       (* Ana para miktari *)
  apr : N;                             (* Yillik getiri orani (%) *)
  days : N;                            (* Staking suresi (gun) *)
  compoundingFrequency : option N      (* optional field *)
}.

Record StakingResult (N : Type) : Type := {
  res_principal : N;                   (* field [principal] *)
  interest : N;
  total : N;
  res_apr : N;                         (* field [apr] *)
  apy : option N                       (* optional field *)
}.

Section Calculations.
Context {N : Type} `{Number N}.
Local Open Scope number_scope.

Definition calculateSimpleInterest (params : StakingParameters N)
  : StakingResult N :=
  let dailyRate := apr params / #100 / #365 in
  let interest := principal params * dailyRate * days params in
  let total := principal params + interest in
  {| res_principal := principal params;
     interest := interest;
     total := total;
     res_apr := apr params;
     apy := None |}.

(** [getCompoundingFrequency]: a [switch] over the cadence name, with its
    [default] branch. *)
Definition getCompoundingFrequency (frequency : string) : N :=
  if String.eqb frequency "daily" then #1
  else if String.eqb frequency "weekly" then #7
  else if String.eqb frequency "monthly" then #30
  else if String.eqb frequency "quarterly" then #90
  else if String.eqb frequency "annually" then #365
  else #1.

Context `{Power N}.

(** [aprToApy(apr, compoundingFrequency = 365)]: the second argument may be
    left out, which is [None] here. *)
Definition aprToApy (apr : N) (compoundingFrequency : option N) : N :=
  let compoundingFrequency :=
    match compoundingFrequency with Some f => f | None => #365 end in
  let periodicRate := apr / #100 / compoundingFrequency in
  let apy := Math_pow (#1 + periodicRate) compoundingFrequency - #1 in
  apy * #100.

Definition calculateCompoundInterest (params : StakingParameters N)
  : StakingResult N :=
  let compoundingFrequency :=
    match compoundingFrequency params with Some f => f | None => #1 end in
  let periodicRate := apr params / #100 / #365 * compoundingFrequency in
  let periods := days params / compoundingFrequency in
  let total := principal params * Math_pow (#1 + periodicRate) periods in
  let interest := total - principal params in
  let apy := aprToApy (apr params) (Some (#365 / compoundingFrequency)) in
  {| res_principal := principal params;
     interest := interest;
     total := total;
     res_apr := apr params;
     apy := Some apy |}.

(** [calculateStakingRewards(params, useCompound = false)]. *)
Definition calculateStakingRewards (params : StakingParameters N)
    (useCompound : option bool) : StakingResult N :=
  let useCompound := match useCompound with Some b => b | None => false end in
  if useCompound then calculateCompoundInterest params
  else calculateSimpleInterest params.

End Calculations.

(** ** constraints.ts *)

Record StakingPeriod (N : Type) : Type := {
  name : string;                       (* Periyot adi *)
  minDays : N;                         (* Minimum stake suresi (gun) *)
  maxDays : option N;                  (* number | null, null = sinirsiz *)
  period_apr : option N                (* optional field [apr] *)
}.

Record CoinStakingConstraints (N : Type) : Type := {
  symbol : string;
  coin_name : string;                  (* field [name] *)
  minStakeAmount : N;
  unbondingPeriod : N;
  stakingPeriods : list (StakingPeriod N);
  notes : option string;
  stakingMethod : option string;
  stakingRisks : option (list string);
  rewardType : option string
}.

(** [String.prototype.toUpperCase] on 8-bit characters: the letters a-z are
    mapped, as JavaScript maps them, and every other character is left
    alone, which is what JavaScript does on ASCII strings only (it also maps
    letters outside ASCII, U+017F to S for one). *)
Definition upper_char (c : ascii) : ascii :=
  let n := N_of_ascii c in
  if ((97 <=? n) && (n <=? 122))%N then ascii_of_N (n - 32) else c.

Fixpoint toUpperCase (s : string) : string :=
  match s with
  | EmptyString => EmptyString
  | String c rest => String (upper_char c) (toUpperCase rest)
  end.

Section Constraints.
Context {N : Type} `{Number N}.
Local Open Scope number_scope.

Definition stakingConstraints : list (CoinStakingConstraints N) :=
  [ {| symbol := "ETH";
       coin_name := "Ethereum";
       minStakeAmount := decimal 1 100;
       unbondingPeriod := #0;
       stakingPeriods := [ {| name := "Flexible"; minDays := #1; maxDays := None;
                             period_apr := None |} ];
       notes := Some "Liquid staking olarak işletilebilir, bu yüzden çözülme süresi yoktur.";
       stakingMethod := Some "Liquid Staking";
       stakingRisks := Some ["Smart contract riski"; "Validator riski"];
       rewardType := Some "ETH" |};
    {| symbol := "SOL";
       coin_name := "Solana";
       minStakeAmount := decimal 1 10;
       unbondingPeriod := #2;
       stakingPeriods := [ {| name := "Flexible"; minDays := #1; maxDays := None;
                             period_apr := None |} ];
       notes := Some "Solana'da unstaking süreci 2-3 gün sürer.";
       stakingMethod := Some "Delegation";
       stakingRisks := Some ["Validator riski"; "Network durma riski"];
       rewardType := Some "SOL" |};
    {| symbol := "ADA";
       coin_name := "Cardano";
       minStakeAmount := #5;
       unbondingPeriod := #0;
       stakingPeriods := [ {| name := "Flexible"; minDays := #1; maxDays := None;
                             period_apr := None |} ];
       notes := Some "Cardano'da staking yaparken fonlarınız kilitlenmez, istediğiniz zaman çekebilirsiniz.";
       stakingMethod := Some "Delegation";
       stakingRisks := Some ["Düşük riskli"];
       rewardType := Some "ADA" |};
    {| symbol := "DOT";
       coin_name := "Polkadot";
       minStakeAmount := #1;
       unbondingPeriod := #28;
       stakingPeriods := [ {| name := "Bonded"; minDays := #28; maxDays := None;
                             period_apr := None |} ];
       notes := Some "Unbonding süresi 28 gündür ve bu süre içinde ödül alınmaz.";
       stakingMethod := Some "Bonding";
       stakingRisks := Some ["Likidite kilidi"; "Slashing riski"];
       rewardType := Some "DOT" |};
    {| symbol := "AVAX";
       coin_name := "Avalanche";
       minStakeAmount := #1;
       unbondingPeriod := #14;
       stakingPeriods := [ {| name := "Flexible"; minDays := #14; maxDays := (Some #365);
                             period_apr := None |} ];
       notes := Some "Avalanche'da stake süresi 14 ile 365 gün arasında değişebilir.";
       stakingMethod := Some "Delegation";
       stakingRisks := Some ["Validator riski"; "Likidite kilidi"];
       rewardType := Some "AVAX" |};
    {| symbol := "ATOM";
       coin_name := "Cosmos";
       minStakeAmount := decimal 1 10;
       unbondingPeriod := #21;
       stakingPeriods := [ {| name := "Bonded"; minDays := #21; maxDays := None;
                             period_apr := None |} ];
       notes := Some "Unbonding süresi 21 gündür ve bu süre içinde ödül alınmaz.";
       stakingMethod := Some "Delegation";
       stakingRisks := Some ["Likidite kilidi"; "Slashing riski"];
       rewardType := Some "ATOM" |};
    {| symbol := "ALGO";
       coin_name := "Algorand";
       minStakeAmount := #1;
       unbondingPeriod := #0;
       stakingPeriods := [ {| name := "Flexible"; minDays := #1; maxDays := None;
                             period_apr := None |} ];
       notes := Some "Algorand stake işlemi anında ve herhangi bir kilitleme olmadan gerçekleşir.";
       stakingMethod := Some "Participation";
       stakingRisks := Some ["Düşük riskli"];
       rewardType := Some "ALGO" |} ].

(** [stakingConstraints.find(coin => coin.symbol === normalizedSymbol) || null] *)
Definition getStakingConstraints (symbol' : string)
  : option (CoinStakingConstraints N) :=
  let normalizedSymbol := toUpperCase symbol' in
  find (fun coin => String.eqb (symbol coin) normalizedSymbol) stakingConstraints.

(** [[...stakingConstraints]]: a fresh array with the same elements. *)
Definition getAllStakingConstraints : list (CoinStakingConstraints N) :=
  stakingConstraints.

Definition isValidStakeAmount (symbol' : string) (amount : N) : bool :=
  match getStakingConstraints symbol' with
  | None => true
  | Some constraints => amount >=? minStakeAmount constraints
  end.

(** The callback of [stakingPeriods.some]. *)
Definition inPeriod (days : N) (period : StakingPeriod N) : bool :=
  (days >=? minDays period)
  && match maxDays period with
     | None => true
     | Some maxDays => days <=? maxDays
     end.

Definition isValidStakeDuration (symbol' : string) (days : N) : bool :=
  match getStakingConstraints symbol' with
  | None => true
  | Some constraints => existsb (inPeriod days) (stakingPeriods constraints)
  end.

End Constraints.

(** ** Abbreviations used in the statements *)

(** The parameters of a calculation without the optional field. *)
Definition params3 {N} (p a d : N) : StakingParameters N :=
  {| principal := p; apr := a; days := d; compoundingFrequency := None |}.

(** The optional field [compoundingFrequency] with its default. *)
Definition frequencyOrDefault {N} `{Number N} (params : StakingParameters N) : N :=
  match compoundingFrequency params with Some f => f | None => (#1)%num end.

(** The example of the specification: 1000 at 12% for 365 days, compounded
    every 30 days. *)
Definition monthly_example {N} `{Number N} : StakingParameters N :=
  {| principal := (#1000)%num; apr := (#12)%num; days := (#365)%num;
     compoundingFrequency := Some (#30)%num |}.


(** ** Further code of the repository *)

(** The parameter record with all four fields. *)
Definition params4 {N} (p a d cf : N) : StakingParameters N :=
  {| principal := p; apr := a; days := d; compoundingFrequency := Some cf |}.

(** The arithmetic of [calculateReward] in the first version of the page
    (the MVP page): [platform.apr / 100] is the rate, and the reward is
    [principal * apr * (days / 365)]. *)
Definition mvpReward {N} `{Number N} (principal platformApr days : N) : N :=
  let apr := (platformApr / #100)%num in
  (principal * apr * (days / #365))%num.

(** [String.prototype.toLowerCase] on 8-bit characters: the letters A-Z are
    mapped and every other character is left alone, which is what
    JavaScript does on ASCII strings only (it maps U+212A to k, for one). *)
Definition lower_char (c : ascii) : ascii :=
  let n := N_of_ascii c in
  if ((65 <=? n) && (n <=? 90))%N then ascii_of_N (n + 32) else c.

Fixpoint toLowerCase (s : string) : string :=
  match s with
  | EmptyString => EmptyString
  | String c rest => String (lower_char c) (toLowerCase rest)
  end.

(** ** api/cache.ts *)

(** A JavaScript [Map] with string keys: the entries in insertion order, one
    per key. *)
Definition JsMap (V : Type) : Type := list (string * V).

Section JsMapOperations.
Context {V : Type}.

Fixpoint Map_get (key : string) (m : JsMap V) : option V :=
  match m with
  | [] => None
  | (k, v) :: rest => if String.eqb k key then Some v else Map_get key rest
  end.

(** [Map.prototype.set]: the value of an existing key is replaced in place,
    a new key goes to the end. *)
Fixpoint Map_set (key : string) (value : V) (m : JsMap V) : JsMap V :=
  match m with
  | [] => [(key, value)]
  | (k, v) :: rest =>
      if String.eqb k key then (k, value) :: rest
      else (k, v) :: Map_set key value rest
  end.

Definition Map_delete (key : string) (m : JsMap V) : JsMap V :=
  filter (fun entry => negb (String.eqb (fst entry) key)) m.

(** The keys of a [Map] are pairwise distinct. *)
Definition Map_wf (m : JsMap V) : Prop := NoDup (map fst m).

End JsMapOperations.

(** Times are the integer milliseconds of [Date.now()]; a time to live is an
    integer number of milliseconds, as are the ones the callers pass. *)
Record CacheEntry (T : Type) : Type := {
  data : T;
  timestamp : Z;
  expiry : Z
}.

(** The state of a [CacheManager] is its [storage]; every reading of the
    clock is an argument. *)
Definition Storage (T : Type) : Type := JsMap (CacheEntry T).

Definition defaultTTL : Z := 5 * 60 * 1000.

Section CacheManager.
Context {T : Type}.

(** [set(key, data, ttl = this.defaultTTL)]; [now1] and [now2] are the two
    readings of [Date.now()], in the order of the object literal. *)
Definition CacheManager_set (key : string) (data' : T) (ttl : option Z)
    (now1 now2 : Z) (storage : Storage T) : Storage T :=
  let ttl := match ttl with Some t => t | None => defaultTTL end in
  Map_set key {| data := data'; timestamp := now1; expiry := (now2 + ttl)%Z |}
          storage.

(** [get(key)]: the result and the storage afterwards.  [None] is the
    [null] of a miss (no entry, or an expired one, which is deleted);
    [Some d] is a hit, which in JavaScript returns [d] itself, so that a
    stored [null] reads like a miss to the caller. *)
Definition CacheManager_get (key : string) (now : Z) (storage : Storage T)
  : option T * Storage T :=
  match Map_get key storage with
  | None => (None, storage)
  | Some entry =>
      if (now >? expiry entry)%Z then (None, Map_delete key storage)
      else (Some (data entry), storage)
  end.

Definition CacheManager_isValid (key : string) (now : Z) (storage : Storage T)
  : bool :=
  match Map_get key storage with
  | None => false
  | Some entry => (now <=? expiry entry)%Z
  end.

Definition CacheManager_clear (storage : Storage T) : Storage T := [].

(** [cleanup()]: one reading of the clock, then the loop over the entries,
    which deletes from the storage as it goes. *)
Definition CacheManager_cleanup (now : Z) (storage : Storage T) : Storage T :=
  fold_left
    (fun current (entry : string * CacheEntry T) =>
       let (key, entry) := entry in
       if (now >? expiry entry)%Z then Map_delete key current else current)
    storage storage.

End CacheManager.

(** ** api/coingecko.ts *)

(** How an awaited promise settles: with a value, or with the message of the
    [Error] it rejects with. *)
Inductive Settled (A : Type) : Type :=
| Fulfilled (value : A)
| Rejected (message : string).
Arguments Rejected {A} message.







(** ** api/defillama.ts *)

Record YieldPool (N : Type) : Type := {
  chain : string;
  project : string;
  pool_symbol : string;                (* field [symbol] *)
  tvlUsd : N;
  apyBase : option N;
  apyReward : option N;
  pool_apy : N;                        (* field [apy] *)
  rewardTokens : option (list string);
  pool : string;
  underlyingTokens : option (list string);
  il7d : option N;
  ilRisk : option string;
  exposure : option string;
  poolMeta : option string;
  stablecoin : bool
}.

(** The strings of 7-bit characters: on them [toUpperCase] and [toLowerCase]
    above are exactly the JavaScript methods. *)
Definition isAscii (s : string) : bool :=
  forallb (fun c => (N_of_ascii c <? 128)%N) (list_ascii_of_string s).

(** [haystack.includes(needle)] *)
Fixpoint includes (needle haystack : string) : bool :=
  String.prefix needle haystack
  || match haystack with
     | EmptyString => false
     | String _ rest => includes needle rest
     end.

(** [s.split('-')[0]]: the characters before the first dash. *)
Fixpoint beforeDash (s : string) : string :=
  match s with
  | EmptyString => EmptyString
  | String c rest =>
      if Ascii.eqb c "-" then EmptyString else String c (beforeDash rest)
  end.

(** [Set.prototype.add] on a set kept in insertion order. *)
Definition Set_add (x : string) (set : list string) : list string :=
  if existsb (String.eqb x) set then set else (set ++ [x])%list.

(** [Array.prototype.sort()] without a comparison function orders strings by
    their code units; the order is total, so every sorting algorithm returns
    the same array for distinct strings. *)
Module StringOrder <: TotalLeBool.
Definition t := string.
Definition leb := String.leb.
Lemma leb_total : forall x y, leb x y = true \/ leb y x = true.
Proof. exact String.leb_total. Qed.
End StringOrder.

Module StringSort := Sort StringOrder.

Section DefiLlama.
Context {N : Type}.

(** [getStakingPlatforms]: [allPools] is what [await this.getYieldPools()]
    settles with. *)
Definition getStakingPlatforms (allPools : Settled (list (YieldPool N)))
    (assetSymbol : string) : Settled (list (YieldPool N)) :=
  let normalizedSymbol := toLowerCase assetSymbol in
  match allPools with
  | Rejected _ =>
      Rejected ("Failed to fetch staking platforms for " ++ assetSymbol)
  | Fulfilled allPools =>
      Fulfilled
        (filter (fun pool =>
                   let poolSymbol := toLowerCase (pool_symbol pool) in
                   String.eqb poolSymbol normalizedSymbol
                   || includes ("-" ++ normalizedSymbol) poolSymbol
                   || includes (normalizedSymbol ++ "-") poolSymbol)
                allPools)
  end.

(** The callback of [allPools.forEach] in [getSupportedAssets]. *)
Definition addAsset (assetSet : list string) (pool : YieldPool N)
  : list string :=
  let baseSymbol := beforeDash (pool_symbol pool) in
  if String.eqb baseSymbol "" then assetSet
  else Set_add (toUpperCase baseSymbol) assetSet.

(** [getSupportedAssets] *)
Definition getSupportedAssets (allPools : Settled (list (YieldPool N)))
  : Settled (list string) :=
  match allPools with
  | Rejected _ => Rejected "Failed to fetch supported assets"
  | Fulfilled allPools =>
      let assetSet := fold_left addAsset allPools [] in
      Fulfilled (StringSort.sort assetSet)
  end.

End DefiLlama.

(** * Lemmas *)

(** ** Comparisons *)

Lemma Rleb_true (a b : R) : Rleb a b = true <-> (a <= b)%R.
Proof. unfold Rleb. destruct (Rle_dec a b); split; intros; try easy. Qed.

Lemma Rleb_false (a b : R) : Rleb a b = false <-> (b < a)%R.
Proof.
  unfold Rleb. destruct (Rle_dec a b); split; intros; try easy; lra.
Qed.

(** The decimal literals of the table, as binary64 reads them. *)
Lemma binary64_decimal :
  decimal 1 100 = 0.01%float /\ decimal 1 10 = 0.1%float
  /\ decimal 5 10 = 0.5%float.
Proof. repeat split. Qed.

(** The order of binary64 on [spec_float]: lexicographic on sign, exponent and
    mantissa, with NaN comparable to nothing. *)
Ltac compare_cases :=
  repeat match goal with
  | H : context [Z.compare ?a ?b] |- _ => destruct (Z.compare_spec a b)
  | |- context [Z.compare ?a ?b] => destruct (Z.compare_spec a b)
  | H : context [Pos.compare_cont Eq ?a ?b] |- _ =>
      change (Pos.compare_cont Eq a b) with (Pos.compare a b) in *;
      destruct (Pos.compare_spec a b)
  | |- context [Pos.compare_cont Eq ?a ?b] =>
      change (Pos.compare_cont Eq a b) with (Pos.compare a b) in *;
      destruct (Pos.compare_spec a b)
  end.

Lemma SFleb_trans (x y z : spec_float) :
  SFleb x y = true -> SFleb y z = true -> SFleb x z = true.
Proof.
  unfold SFleb, SFcompare.
  destruct x as [sx|sx| |sx mx ex], y as [sy|sy| |sy my ey],
           z as [sz|sz| |sz mz ez];
    try destruct sx; try destruct sy; try destruct sz;
    cbn; intros Hxy Hyz; try discriminate; try reflexivity;
    compare_cases; subst; cbn in *; try discriminate; try reflexivity; lia.
Qed.

Lemma float_leb_trans (x y z : float) :
  PrimFloat.leb x y = true -> PrimFloat.leb y z = true ->
  PrimFloat.leb x z = true.
Proof. rewrite !leb_spec. apply SFleb_trans. Qed.

(** ** The registry and its lookup *)

Section Lookup.
Context {N : Type} `{Number N}.

Lemma getStakingConstraints_Some (s : string) (c : CoinStakingConstraints N) :
  getStakingConstraints s = Some c ->
  In c stakingConstraints /\ symbol c = toUpperCase s.
Proof.
  unfold getStakingConstraints. intros Hfind.
  apply find_some in Hfind. destruct Hfind as [Hin Heq].
  split; [exact Hin | now apply String.eqb_eq].
Qed.

Lemma getStakingConstraints_None (s : string) :
  getStakingConstraints (N := N) s = None <->
  forall c, In c stakingConstraints -> symbol c <> toUpperCase s.
Proof.
  unfold getStakingConstraints. split.
  - intros Hfind c Hin. apply String.eqb_neq.
    exact (find_none _ _ Hfind c Hin).
  - intros Hall.
    destruct (find _ stakingConstraints) as [c|] eqn:Hfind; [|reflexivity].
    apply find_some in Hfind. destruct Hfind as [Hin Heq].
    apply String.eqb_eq in Heq. destruct (Hall c Hin Heq).
Qed.

(** No two entries share a symbol, so the entry found is the only candidate. *)
Lemma getStakingConstraints_In (s : string) (c : CoinStakingConstraints N) :
  In c stakingConstraints -> symbol c = toUpperCase s ->
  getStakingConstraints s = Some c.
Proof.
  unfold getStakingConstraints. intros Hin Heq. rewrite <- Heq. clear Heq.
  cbn in Hin.
  repeat (destruct Hin as [<- | Hin]; [reflexivity|]).
  destruct Hin.
Qed.

Lemma getStakingConstraints_upper (s t : string) :
  toUpperCase t = toUpperCase s ->
  getStakingConstraints (N := N) t = getStakingConstraints s.
Proof. unfold getStakingConstraints. now intros ->. Qed.

End Lookup.

Lemma upper_char_idem (c : ascii) : upper_char (upper_char c) = upper_char c.
Proof. destruct c as [[] [] [] [] [] [] [] []]; reflexivity. Qed.

Lemma toUpperCase_idem (s : string) : toUpperCase (toUpperCase s) = toUpperCase s.
Proof.
  induction s as [|c s IH]; cbn; [reflexivity|].
  now rewrite upper_char_idem, IH.
Qed.

(** ** Validation of a duration *)

Section Duration.
Context {N : Type} `{Number N}.
Local Open Scope number_scope.

Lemma inPeriod_true (days : N) (p : StakingPeriod N) :
  inPeriod days p = true <->
  (days >=? minDays p) = true
  /\ forall m, maxDays p = Some m -> (days <=? m) = true.
Proof.
  unfold inPeriod. rewrite andb_true_iff.
  destruct (maxDays p) as [m|]; split; intros [Hlo Hhi]; split; auto.
  - now intros m' [= <-].
  - intros m' [=].
Qed.

Lemma isValidStakeDuration_Some (s : string) (c : CoinStakingConstraints N)
    (days : N) :
  getStakingConstraints s = Some c ->
  (isValidStakeDuration s days = true <->
   exists p, In p (stakingPeriods c) /\ inPeriod days p = true).
Proof.
  intros Hsome. unfold isValidStakeDuration. rewrite Hsome.
  apply existsb_exists.
Qed.

End Duration.

(** ** [Math.pow] on the reals *)

Section RealPow.
Local Open Scope R_scope.

Lemma real_pow_0_r (x : R) : real_pow x 0 = 1.
Proof. unfold real_pow. destruct (Req_dec_T 0 0); [reflexivity | easy]. Qed.

Lemma real_pow_pos (x y : R) : 0 < x -> real_pow x y = Rpower x y.
Proof.
  intros Hx. unfold real_pow.
  destruct (Req_dec_T y 0) as [-> | Hy].
  - now rewrite Rpower_O.
  - destruct (Rlt_dec 0 x); [reflexivity | easy].
Qed.

Lemma real_pow_0_l (y : R) : 0 < y -> real_pow 0 y = 0.
Proof.
  intros Hy. unfold real_pow.
  destruct (Req_dec_T y 0); [lra|].
  destruct (Rlt_dec 0 0); [lra|].
  destruct (Req_dec_T 0 0); [reflexivity | easy].
Qed.

Lemma real_pow_1_l (y : R) : real_pow 1 y = 1.
Proof.
  rewrite real_pow_pos by lra.
  unfold Rpower. now rewrite ln_1, Rmult_0_r, exp_0.
Qed.

Lemma parity_of_nat (n : nat) :
  (Z.even (Z.of_nat n) = true /\ exists k, n = (2 * k)%nat)
  \/ (Z.even (Z.of_nat n) = false /\ exists k, n = S (2 * k)).
Proof.
  destruct (Z.even (Z.of_nat n)) eqn:He.
  - left. split; [reflexivity|].
    apply Z.even_spec in He. destruct He as [m Hm].
    exists (Z.to_nat m). lia.
  - right. split; [reflexivity|].
    rewrite <- Z.negb_odd in He. apply negb_false_iff, Z.odd_spec in He.
    destruct He as [m Hm]. exists (Z.to_nat m). lia.
Qed.

Lemma frac_part_INR (n : nat) : frac_part (INR n) = 0.
Proof. unfold frac_part. rewrite Int_part_INR, <- INR_IZR_INZ. ring. Qed.

(** On a natural exponent [Math.pow] is the iterated product, whatever the
    sign of the base. *)
Lemma real_pow_INR (x : R) (n : nat) : real_pow x (INR n) = x ^ n.
Proof.
  unfold real_pow.
  destruct (Req_dec_T (INR n) 0) as [Hn | Hn].
  - replace n with 0%nat; [reflexivity|]. symmetry. now apply INR_eq.
  - destruct (Rlt_dec 0 x) as [Hx | Hx]; [now apply Rpower_pow|].
    destruct (Req_dec_T x 0) as [-> | Hx0].
    + symmetry. apply pow_ne_zero. intros ->. now apply Hn.
    + rewrite frac_part_INR, Int_part_INR.
      destruct (Req_dec_T 0 0) as [_ | Habs]; [| easy].
      rewrite Rpower_pow by lra.
      replace (- x) with (-1 * x) by ring. rewrite Rpow_mult_distr.
      destruct (parity_of_nat n) as [[-> [k ->]] | [-> [k ->]]].
      * rewrite pow_1_even. ring.
      * rewrite pow_1_odd. ring.
Qed.



(** A base of at least 1 and a non-negative exponent give at least 1, and
    exactly 1 only for base 1 or exponent 0. *)
Lemma real_pow_ge_1 (x y : R) : 1 <= x -> 0 <= y -> 1 <= real_pow x y.
Proof.
  intros Hx Hy. rewrite real_pow_pos by lra.
  rewrite <- (Rpower_O x) by lra. apply Rle_Rpower; assumption.
Qed.


(** A base above 1 makes [Math.pow] strictly increasing in the exponent. *)
Lemma real_pow_lt_exponent (x y z : R) :
  1 < x -> y < z -> real_pow x y < real_pow x z.
Proof.
  intros Hx Hyz. rewrite !real_pow_pos by lra. now apply Rpower_lt.
Qed.

End RealPow.

(** ** APR to APY *)

Section ApyMonotone.
Local Open Scope R_scope.

Lemma aprToApy_nat (apr : R) (n : nat) :
  aprToApy apr (Some (INR n)) = ((1 + apr / 100 / INR n) ^ n - 1) * 100.
Proof.
  unfold aprToApy; cbn [Math_pow reals_pow reals add sub mul div ofZ].
  now rewrite real_pow_INR.
Qed.




End ApyMonotone.

(** ** Odd powers *)

Section OddPowers.
Local Open Scope R_scope.




End OddPowers.

(** ** Sign of the interest: arithmetic *)

Section InterestSign.
Local Open Scope R_scope.

Lemma simple_interest_sign (p a d : R) :
  0 < p -> 0 <= a -> 0 <= d ->
  0 <= p * (a / 100 / 365) * d
  /\ (p * (a / 100 / 365) * d = 0 -> a = 0 \/ d = 0).
Proof.
  intros Hp Ha Hd. split.
  - apply Rmult_le_pos; [apply Rmult_le_pos|]; lra.
  - intros Hz. apply Rmult_integral in Hz. destruct Hz as [Hz | Hz]; [|now right].
    apply Rmult_integral in Hz. destruct Hz as [Hz | Hz]; lra.
Qed.

Lemma periodic_rate_sign (a cf : R) :
  0 <= a -> 1 <= cf ->
  1 <= 1 + a / 100 / 365 * cf /\ (1 + a / 100 / 365 * cf = 1 -> a = 0).
Proof.
  intros Ha Hcf.
  assert (Hr : 0 <= a / 100 / 365 * cf) by (apply Rmult_le_pos; lra).
  split; [lra|]. intros Hz.
  assert (Hz' : a / 100 / 365 * cf = 0) by lra.
  apply Rmult_integral in Hz'. destruct Hz' as [Hz' | Hz']; lra.
Qed.

Lemma periods_sign (d cf : R) :
  0 <= d -> 1 <= cf -> 0 <= d / cf /\ (d / cf = 0 -> d = 0).
Proof.
  intros Hd Hcf.
  assert (Hq : 0 < / cf) by (apply Rinv_0_lt_compat; lra).
  unfold Rdiv. split.
  - apply Rmult_le_pos; lra.
  - intros Hz. apply Rmult_integral in Hz. destruct Hz as [Hz | Hz]; lra.
Qed.

End InterestSign.

(** ** Signs in binary64 *)










(** * The claims *)

(** ** Simple interest *)

(** C1.  For every parameter record, [calculateSimpleInterest] returns
    interest = principal * (apr/100/365) * days and total = principal +
    interest, echoes principal and apr and leaves [apy] absent, in binary64 as
    in exact arithmetic; in exact arithmetic the interest is linear in [days]
    and linear in [apr] (so no interest is earned on interest); and principal
    100, apr 10, days 365 give interest 10 and total 110, exactly, in both. *)
Theorem C1_simple_interest :
  (forall (N : Type) (num : Number N) (params : StakingParameters N),
      let r := calculateSimpleInterest params in
      interest r = (principal params * (apr params / #100 / #365) * days params)%num
      /\ total r = (principal params + interest r)%num
      /\ res_principal r = principal params
      /\ res_apr r = apr params
      /\ apy r = None)
  /\ (forall p a d1 d2 k1 k2 : R,
         interest (calculateSimpleInterest (params3 p a (k1 * d1 + k2 * d2)%R))
         = (k1 * interest (calculateSimpleInterest (params3 p a d1))
            + k2 * interest (calculateSimpleInterest (params3 p a d2)))%R)
  /\ (forall p a1 a2 d k1 k2 : R,
         interest (calculateSimpleInterest (params3 p (k1 * a1 + k2 * a2)%R d))
         = (k1 * interest (calculateSimpleInterest (params3 p a1 d))
            + k2 * interest (calculateSimpleInterest (params3 p a2 d)))%R)
  /\ (let r := calculateSimpleInterest (params3 100%R 10%R 365%R) in
      interest r = 10%R /\ total r = 110%R)
  /\ (let r := calculateSimpleInterest (params3 100%float 10%float 365%float) in
      interest r = 10%float /\ total r = 110%float).
Proof.
  split; [| split; [| split; [| split]]].
  - intros N num params. cbv zeta. repeat split.
  - intros p a d1 d2 k1 k2. unfold calculateSimpleInterest, params3; cbn. field.
  - intros p a1 a2 d k1 k2. unfold calculateSimpleInterest, params3; cbn. field.
  - unfold calculateSimpleInterest, params3; cbn. split; field.
  - split; vm_compute; reflexivity.
Qed.

(** ** Compound interest *)

(** C2.  For every parameter record, with [cf] the compounding frequency or 1
    when the field is absent, [calculateCompoundInterest] returns
    total = principal * (1 + apr/100/365 * cf)^(days/cf), the exponent being
    the quotient itself, and interest = total - principal.  In exact
    arithmetic, for [cf] other than 0 and a positive base, this is the real
    power exp((days/cf) * ln(1 + apr/100/365 * cf)).  For principal 1000, apr 12,
    days 365 and cf 30 the periodic rate is 0.12/365*30 and the number of
    periods 365/30 = 12 + 1/6, so that the total lies strictly between the
    totals of 12 and of 13 whole periods; in binary64, whatever [Math.pow]
    the implementation provides, it is called on 1 + 0.12/365*30 and on
    12.166666666666666. *)
Theorem C2_compound_interest :
  (forall (N : Type) (num : Number N) (pw : Power N)
          (params : StakingParameters N),
      let cf := frequencyOrDefault params in
      let r := calculateCompoundInterest params in
      total r = (principal params
                 * Math_pow (#1 + apr params / #100 / #365 * cf)
                            (days params / cf))%num
      /\ interest r = (total r - principal params)%num
      /\ res_principal r = principal params
      /\ res_apr r = apr params)
  /\ (forall (N : Type) (num : Number N) (p a d : N),
         frequencyOrDefault (params3 p a d) = (#1)%num)
  /\ (forall params : StakingParameters R,
         let cf := frequencyOrDefault params in
         cf <> 0%R -> (0 < 1 + apr params / 100 / 365 * cf)%R ->
         total (calculateCompoundInterest params)
         = (principal params
            * exp (days params / cf * ln (1 + apr params / 100 / 365 * cf)))%R)
  /\ (let r := calculateCompoundInterest (N := R) monthly_example in
      total r = (1000 * Rpower (1 + 0.12 / 365 * 30) (365 / 30))%R
      /\ (365 / 30 = 12 + 1 / 6)%R
      /\ (1000 * (1 + 0.12 / 365 * 30) ^ 12 < total r)%R
      /\ (total r < 1000 * (1 + 0.12 / 365 * 30) ^ 13)%R)
  /\ (forall pw : Power float,
         total (calculateCompoundInterest (N := float) monthly_example)
         = (1000 * Math_pow (1 + 0.12 / 365 * 30) 12.166666666666666)%float).
Proof.
  split; [| split; [| split; [| split]]].
  - intros N num pw params. cbv zeta. repeat split.
  - reflexivity.
  - intros params cf _ Hbase.
    unfold calculateCompoundInterest; cbn.
    fold (frequencyOrDefault params). fold cf.
    now rewrite real_pow_pos by exact Hbase.
  - cbv zeta.
    assert (Hbase : (1 < 1 + 0.12 / 365 * 30)%R) by lra.
    assert (Htotal : total (calculateCompoundInterest (N := R) monthly_example)
                     = (1000 * Rpower (1 + 0.12 / 365 * 30) (365 / 30))%R).
    { unfold calculateCompoundInterest, monthly_example; cbn.
      replace (12 / 100 / 365 * 30)%R with (0.12 / 365 * 30)%R by lra.
      now rewrite real_pow_pos by lra. }
    rewrite Htotal. split; [reflexivity|]. split; [lra|]. split.
    + apply Rmult_lt_compat_l; [lra|].
      rewrite <- Rpower_pow by lra.
      apply Rpower_lt; [exact Hbase | simpl; lra].
    + apply Rmult_lt_compat_l; [lra|].
      rewrite <- Rpower_pow by lra.
      apply Rpower_lt; [exact Hbase | simpl; lra].
  - intros pw. vm_compute. reflexivity.
Qed.

Lemma C2_compound_interest_witness :
  total (calculateCompoundInterest (params3 100%R 10%R 0%R)) = 100%R.
Proof.
  rewrite (proj1 (proj2 (proj2 C2_compound_interest)) (params3 100 10 0)%R).
  - cbn. replace (0 / 1 * _)%R with 0%R by (unfold Rdiv; ring).
    rewrite exp_0. ring.
  - cbn. lra.
  - cbn. lra.
Defined.

(** ** APR to APY *)

(** C3.  [aprToApy apr f] is ((1 + (apr/100)/f)^f - 1) * 100, with 365 for
    [f] when the argument is left out, and the [apy] field of
    [calculateCompoundInterest] is [aprToApy apr (365 / cf)].  In exact
    arithmetic the power is the real power exp(f * ln(1 + apr/100/f)) for
    [f > 0] and a positive base, and the iterated product, whatever the sign
    of the base, when [f] is a natural number other than 0. *)
Theorem C3_apr_to_apy :
  (forall (N : Type) (num : Number N) (pw : Power N) (apr f : N),
      aprToApy apr (Some f)
      = ((Math_pow (#1 + apr / #100 / f) f - #1) * #100)%num)
  /\ (forall (N : Type) (num : Number N) (pw : Power N) (apr : N),
         aprToApy apr None = aprToApy apr (Some (#365)%num))
  /\ (forall (N : Type) (num : Number N) (pw : Power N)
             (params : StakingParameters N),
         apy (calculateCompoundInterest params)
         = Some (aprToApy (apr params)
                          (Some (#365 / frequencyOrDefault params)%num)))
  /\ (forall apr f : R,
         (0 < f)%R -> (0 < 1 + apr / 100 / f)%R ->
         aprToApy apr (Some f)
         = ((exp (f * ln (1 + apr / 100 / f)) - 1) * 100)%R)
  /\ (forall (apr : R) (n : nat),
         n <> 0%nat ->
         aprToApy apr (Some (INR n))
         = (((1 + apr / 100 / INR n) ^ n - 1) * 100)%R)
  /\ (forall apr : R,
         aprToApy apr None = (((1 + apr / 100 / 365) ^ 365 - 1) * 100)%R).
Proof.
  split; [| split; [| split; [| split; [| split]]]].
  - reflexivity.
  - reflexivity.
  - reflexivity.
  - intros apr f Hf Hbase. unfold aprToApy; cbn.
    now rewrite real_pow_pos by exact Hbase.
  - intros apr n _. apply aprToApy_nat.
  - intros apr. unfold aprToApy; cbn [Math_pow reals_pow reals add sub mul div ofZ].
    replace 365%R with (INR 365) at 2 3 by (rewrite INR_IZR_INZ; reflexivity).
    rewrite real_pow_INR.
    replace (INR 365) with 365%R by (rewrite INR_IZR_INZ; reflexivity).
    reflexivity.
Qed.

Lemma C3_apr_to_apy_witness :
  aprToApy 100%R (Some 1%R) = ((exp (1 * ln (1 + 100 / 100 / 1)) - 1) * 100)%R
  /\ aprToApy 10%R (Some (INR 2)) = (((1 + 10 / 100 / INR 2) ^ 2 - 1) * 100)%R.
Proof.
  split.
  - apply (proj1 (proj2 (proj2 (proj2 C3_apr_to_apy))) 100%R 1%R); lra.
  - apply (proj1 (proj2 (proj2 (proj2 (proj2 C3_apr_to_apy)))) 10%R 2%nat).
    discriminate.
Defined.

(** C4.  [isValidStakeDuration] is [true] when the registry has no entry for
    the upper-cased symbol, and otherwise [true] exactly when some window of
    the entry has [minDays <= days] and, unless its [maxDays] is [null],
    [days <= maxDays]; for DOT, 27 days are refused and 28 and 10000 days
    are accepted, in exact arithmetic and in binary64. *)
Theorem C4_stake_duration :
  (forall (N : Type) (num : Number N) (s : string) (days : N),
      ((forall c, In c stakingConstraints -> symbol c <> toUpperCase s) ->
       isValidStakeDuration s days = true)
      /\ (forall c, In c stakingConstraints -> symbol c = toUpperCase s ->
          (isValidStakeDuration s days = true <->
           exists p, In p (stakingPeriods c)
                     /\ (days >=? minDays p)%num = true
                     /\ forall m, maxDays p = Some m -> (days <=? m)%num = true)))
  /\ (forall (s : string) (c : CoinStakingConstraints R) (days : R),
         In c stakingConstraints -> symbol c = toUpperCase s ->
         (isValidStakeDuration s days = true <->
          exists p, In p (stakingPeriods c)
                    /\ (minDays p <= days)%R
                    /\ forall m, maxDays p = Some m -> (days <= m)%R))
  /\ (isValidStakeDuration "DOT" 27%R = false
      /\ isValidStakeDuration "DOT" 28%R = true
      /\ isValidStakeDuration "DOT" 10000%R = true)
  /\ (isValidStakeDuration "DOT" 27%float = false
      /\ isValidStakeDuration "DOT" 28%float = true
      /\ isValidStakeDuration "DOT" 10000%float = true).
Proof.
  split; [| split; [| split]].
  - intros N num s days. split.
    + intros Hnone. apply getStakingConstraints_None in Hnone.
      unfold isValidStakeDuration. now rewrite Hnone.
    + intros c Hin Hsym.
      rewrite (isValidStakeDuration_Some s days (getStakingConstraints_In s Hin Hsym)).
      split; intros [p [Hp Hd]]; exists p; (split; [exact Hp|]);
        now apply inPeriod_true.
  - intros s c days Hin Hsym.
    rewrite (isValidStakeDuration_Some s days (getStakingConstraints_In s Hin Hsym)).
    split; intros [p [Hp Hd]]; exists p; (split; [exact Hp|]).
    + apply inPeriod_true in Hd. destruct Hd as [Hlo Hhi]. split.
      * now apply Rleb_true.
      * intros m Hm. apply Rleb_true. now apply Hhi.
    + destruct Hd as [Hlo Hhi]. apply inPeriod_true. split.
      * now apply Rleb_true.
      * intros m Hm. apply Rleb_true. now apply Hhi.
  - change (isValidStakeDuration "DOT" 27%R) with (Rleb 28 27 && true || false).
    change (isValidStakeDuration "DOT" 28%R) with (Rleb 28 28 && true || false).
    change (isValidStakeDuration "DOT" 10000%R)
      with (Rleb 28 10000 && true || false).
    rewrite (proj2 (Rleb_false 28 27)) by lra.
    rewrite (proj2 (Rleb_true 28 28)) by lra.
    rewrite (proj2 (Rleb_true 28 10000)) by lra.
    repeat split.
  - repeat split.
Qed.

Lemma C4_stake_duration_witness :
  isValidStakeDuration "unlisted" 3%R = true
  /\ isValidStakeDuration "avax" 100%R = true.
Proof.
  split.
  - apply (proj1 (proj1 C4_stake_duration R reals "unlisted" 3%R)).
    intros c Hin. cbn in Hin.
    repeat (destruct Hin as [<- | Hin]; [discriminate|]). destruct Hin.
  - eapply (proj1 (proj2 C4_stake_duration) "avax").
    + unfold stakingConstraints. do 4 right. left. reflexivity.
    + reflexivity.
    + eexists. split; [left; reflexivity|]. cbn. split; [lra|].
      intros m [= <-]. lra.
Defined.

(** C5.  [getStakingConstraints] looks the upper-cased symbol up exactly: it
    returns the one entry whose symbol is the upper-cased argument and [None]
    (no error) when there is none, so the answer does not depend on the case
    of the argument; [isValidStakeAmount] is [true] when the lookup finds
    nothing and [amount >= minStakeAmount] otherwise.  With the examples of
    the specification, in exact arithmetic and in binary64. *)
Theorem C5_lookup_and_amount :
  (forall (N : Type) (num : Number N) (s : string),
      (forall c, getStakingConstraints s = Some c <->
                 In c stakingConstraints /\ symbol c = toUpperCase s)
      /\ (getStakingConstraints (N := N) s = None <->
          forall c, In c stakingConstraints -> symbol c <> toUpperCase s)
      /\ getStakingConstraints (N := N) (toUpperCase s) = getStakingConstraints s
      /\ (forall t, toUpperCase t = toUpperCase s ->
                    getStakingConstraints (N := N) t = getStakingConstraints s)
      /\ (getStakingConstraints (N := N) s = None ->
          forall amount, isValidStakeAmount s amount = true)
      /\ (forall c, getStakingConstraints s = Some c ->
          forall amount,
            isValidStakeAmount s amount = (amount >=? minStakeAmount c)%num))
  /\ (forall (s : string) (c : CoinStakingConstraints R) (amount : R),
         getStakingConstraints s = Some c ->
         (isValidStakeAmount s amount = true <-> (minStakeAmount c <= amount)%R))
  /\ (forall (N : Type) (num : Number N),
         getStakingConstraints (N := N) "xyz-unknown" = None
         /\ option_map (@symbol N) (getStakingConstraints "dot") = Some "DOT"
         /\ option_map (@symbol N) (getStakingConstraints "Dot") = Some "DOT"
         /\ option_map (@symbol N) (getStakingConstraints "DOT") = Some "DOT")
  /\ (isValidStakeAmount "xyz-unknown" (-5)%R = true
      /\ isValidStakeAmount "DOT" 0.5%R = false
      /\ isValidStakeAmount "DOT" 1%R = true)
  /\ (isValidStakeAmount "xyz-unknown" (-5)%float = true
      /\ isValidStakeAmount "DOT" 0.5%float = false
      /\ isValidStakeAmount "DOT" 1%float = true).
Proof.
  split; [| split; [| split; [| split]]].
  - intros N num s.
    split; [| split; [| split; [| split; [| split]]]].
    + intros c. split; [apply getStakingConstraints_Some|].
      intros [Hin Heq]. now apply getStakingConstraints_In.
    + apply getStakingConstraints_None.
    + apply getStakingConstraints_upper. apply toUpperCase_idem.
    + apply getStakingConstraints_upper.
    + intros Hnone amount. unfold isValidStakeAmount. now rewrite Hnone.
    + intros c Hsome amount. unfold isValidStakeAmount. now rewrite Hsome.
  - intros s c amount Hsome. unfold isValidStakeAmount. rewrite Hsome.
    apply Rleb_true.
  - intros N num. repeat split.
  - repeat split.
    + change (Rleb 1 0.5 = false). apply Rleb_false. lra.
    + change (Rleb 1 1 = true). apply Rleb_true. lra.
  - repeat split.
Qed.

Lemma C5_lookup_and_amount_witness :
  isValidStakeAmount "unlisted" 3%R = true
  /\ isValidStakeAmount "eth" (1 / 2)%R = true.
Proof.
  split.
  - destruct (proj1 C5_lookup_and_amount R reals "unlisted")
      as (_ & _ & _ & _ & Hnone & _).
    apply Hnone. reflexivity.
  - eapply (proj1 (proj2 C5_lookup_and_amount) "eth"); [reflexivity|].
    cbn. unfold decimal. cbn. lra.
Defined.

(** ** Sign of the interest *)







(** ** The compounding cadence *)

(** C8.  [getCompoundingFrequency] answers for every input: 1, 7, 30, 90 and
    365 for the five cadence names, and 1 for any other argument. *)
Theorem C8_compounding_frequency :
  forall (N : Type) (num : Number N),
    getCompoundingFrequency "daily" = (#1)%num
    /\ getCompoundingFrequency "weekly" = (#7)%num
    /\ getCompoundingFrequency "monthly" = (#30)%num
    /\ getCompoundingFrequency "quarterly" = (#90)%num
    /\ getCompoundingFrequency "annually" = (#365)%num
    /\ (forall s : string,
           ~ In s ["daily"; "weekly"; "monthly"; "quarterly"; "annually"] ->
           getCompoundingFrequency s = (#1)%num)
    /\ (forall s : string,
           In (getCompoundingFrequency s)
              [(#1)%num; (#7)%num; (#30)%num; (#90)%num; (#365)%num]).
Proof.
  intros N num. do 5 (split; [reflexivity|]). split.
  - intros s Hs. unfold getCompoundingFrequency.
    repeat match goal with
    | |- context [String.eqb s ?k] =>
        destruct (String.eqb_spec s k) as [->|_]; [exfalso; apply Hs; cbn; tauto|]
    end.
    reflexivity.
  - intros s. unfold getCompoundingFrequency.
    repeat match goal with
    | |- context [String.eqb s ?k] => destruct (String.eqb s k); [cbn; tauto|]
    end.
    cbn; tauto.
Qed.

Lemma C8_compounding_frequency_witness :
  getCompoundingFrequency "hourly" = 1%R
  /\ getCompoundingFrequency "hourly" = 1%float.
Proof.
  split.
  - apply (C8_compounding_frequency reals). cbn.
    intuition discriminate.
  - apply (C8_compounding_frequency binary64). cbn.
    intuition discriminate.
Defined.

(** ** The invariant of the registry *)

(** C9.  Every entry of the registry has at least one staking period, every
    period has [minDays >= 0], and a [maxDays] that is not [null] is at
    least the period's [minDays]; in exact arithmetic and in binary64. *)
Theorem C9_registry_invariant :
  Forall (fun c : CoinStakingConstraints R =>
            stakingPeriods c <> []
            /\ Forall (fun p => (0 <= minDays p)%R
                                /\ forall m, maxDays p = Some m ->
                                             (minDays p <= m)%R)
                      (stakingPeriods c))
         stakingConstraints
  /\ Forall (fun c : CoinStakingConstraints float =>
               stakingPeriods c <> []
               /\ Forall (fun p => PrimFloat.leb 0 (minDays p) = true
                                   /\ forall m, maxDays p = Some m ->
                                                PrimFloat.leb (minDays p) m = true)
                         (stakingPeriods c))
            stakingConstraints.
Proof.
  split.
  - unfold stakingConstraints.
    repeat (apply Forall_cons; [split; [discriminate|]|]); try apply Forall_nil;
      repeat (apply Forall_cons; [split|]); try apply Forall_nil; cbn;
      try (intros m [= <-]); try (intros m [=]); lra.
  - unfold stakingConstraints.
    repeat (apply Forall_cons; [split; [discriminate|]|]); try apply Forall_nil;
      repeat (apply Forall_cons; [split|]); try apply Forall_nil; cbn;
      try (intros m [= <-]); try (intros m [=]); reflexivity.
Qed.

Lemma C9_registry_invariant_witness : (14 <= 365)%R.
Proof.
  pose proof (proj1 C9_registry_invariant) as Hall.
  rewrite Forall_forall in Hall.
  assert (Havax : exists c : CoinStakingConstraints R,
             In c stakingConstraints
             /\ exists p, In p (stakingPeriods c)
                          /\ minDays p = 14%R /\ maxDays p = Some 365%R).
  { eexists. split; [unfold stakingConstraints; do 4 right; left; reflexivity|].
    eexists. split; [left; reflexivity|]. split; reflexivity. }
  destruct Havax as (c & Hc & p & Hp & Hmin & Hmax).
  destruct (Hall c Hc) as [_ Hperiods].
  rewrite Forall_forall in Hperiods.
  rewrite <- Hmin. exact (proj2 (Hperiods p Hp) _ Hmax).
Defined.

(** C10.  Amount validity is upward closed: an amount above a valid amount
    is valid, for every symbol, in exact arithmetic and in binary64 (where
    [a <= b] rules NaN out on both sides). *)
Theorem C10_amount_upward_closed :
  (forall (s : string) (a b : R),
      (a <= b)%R ->
      isValidStakeAmount s a = true -> isValidStakeAmount s b = true)
  /\ (forall (s : string) (a b : float),
         PrimFloat.leb a b = true ->
         isValidStakeAmount s a = true -> isValidStakeAmount s b = true).
Proof.
  split; intros s a b Hab; unfold isValidStakeAmount;
    destruct (getStakingConstraints s) as [c|]; trivial; cbn.
  - rewrite !Rleb_true. lra.
  - intros Ha. exact (float_leb_trans Ha Hab).
Qed.

Lemma C10_amount_upward_closed_witness :
  isValidStakeAmount "DOT" 2%R = true /\ isValidStakeAmount "DOT" 2%float = true.
Proof.
  split.
  - apply (proj1 C10_amount_upward_closed "DOT" 1%R 2%R); [lra|].
    change (Rleb 1 1 = true). apply Rleb_true. lra.
  - apply (proj2 C10_amount_upward_closed "DOT" 1%float 2%float); reflexivity.
Defined.

(** * Beyond the claims *)

(** ** Letter case *)

Lemma upper_lower_char (c : ascii) : upper_char (lower_char c) = upper_char c.
Proof. destruct c as [[] [] [] [] [] [] [] []]; reflexivity. Qed.

Lemma lower_upper_char (c : ascii) : lower_char (upper_char c) = lower_char c.
Proof. destruct c as [[] [] [] [] [] [] [] []]; reflexivity. Qed.

Lemma toUpperCase_toLowerCase (s : string) :
  toUpperCase (toLowerCase s) = toUpperCase s.
Proof.
  induction s as [|c s IH]; cbn; [reflexivity|].
  now rewrite upper_lower_char, IH.
Qed.

Lemma toLowerCase_toUpperCase (s : string) :
  toLowerCase (toUpperCase s) = toLowerCase s.
Proof.
  induction s as [|c s IH]; cbn; [reflexivity|].
  now rewrite lower_upper_char, IH.
Qed.

(** ** The calculators *)

Section Bernoulli.
Local Open Scope R_scope.

Lemma ln_le_minus_1 (u : R) : 0 < u -> ln u <= u - 1.
Proof.
  intros Hu. pose proof (exp_ineq1_le (ln u)) as H.
  rewrite exp_ln in H by exact Hu. lra.
Qed.

(** Concavity of the logarithm between 1 and [b]. *)
Lemma ln_concave_1 (t b : R) :
  0 <= t <= 1 -> 0 < b -> t * ln b <= ln (1 - t + t * b).
Proof.
  intros [Ht0 Ht1] Hb.
  set (m := 1 - t + t * b).
  assert (Hm : 0 < m).
  { unfold m. destruct (Rle_lt_dec 1 t) as [H1 | H1].
    - replace t with 1 by lra. lra.
    - assert (0 <= t * b) by (apply Rmult_le_pos; lra). lra. }
  assert (Hbm : ln (b / m) = ln b - ln m).
  { unfold Rdiv. rewrite ln_mult, ln_Rinv; try lra.
    now apply Rinv_0_lt_compat. }
  assert (H1m : ln (/ m) = - ln m) by now apply ln_Rinv.
  assert (Hq : 0 < / m) by now apply Rinv_0_lt_compat.
  assert (Hbq : 0 < b / m) by (unfold Rdiv; apply Rmult_lt_0_compat; lra).
  pose proof (ln_le_minus_1 Hbq) as Hb1.
  pose proof (ln_le_minus_1 Hq) as Hq1.
  rewrite Hbm in Hb1. rewrite H1m in Hq1.
  assert (Ha : t * (ln b - ln m) <= t * (b / m - 1))
    by (apply Rmult_le_compat_l; lra).
  assert (Hc : (1 - t) * (- ln m) <= (1 - t) * (/ m - 1))
    by (apply Rmult_le_compat_l; lra).
  assert (Hz : t * (b / m - 1) + (1 - t) * (/ m - 1) = 0).
  { unfold m. field. fold m. lra. }
  lra.
Qed.

(** Bernoulli's inequality for a real exponent, on the model of [Math.pow]:
    below the tangent for exponents in [0, 1], above it for exponents from 1
    on. *)
Lemma real_pow_bernoulli_le (z t : R) :
  -1 < z -> 0 <= t <= 1 -> real_pow (1 + z) t <= 1 + t * z.
Proof.
  intros Hz Ht. rewrite real_pow_pos by lra. unfold Rpower.
  pose proof (@ln_concave_1 t (1 + z) Ht ltac:(lra)) as Hc.
  replace (1 - t + t * (1 + z)) with (1 + t * z) in Hc by ring.
  assert (Hm : 0 < 1 + t * z).
  { destruct Ht as [Ht0 Ht1]. destruct (Rle_lt_dec 0 z).
    - assert (0 <= t * z) by (apply Rmult_le_pos; lra). lra.
    - assert (t * (- z) <= 1 * (- z)) by (apply Rmult_le_compat_r; lra). lra. }
  rewrite <- (exp_ln (1 + t * z)) by exact Hm.
  destruct Hc as [Hc | Hc].
  - left. now apply exp_increasing.
  - right. now rewrite Hc.
Qed.

Lemma real_pow_bernoulli_ge (z a : R) :
  -1 < z -> 1 <= a -> 1 + a * z <= real_pow (1 + z) a.
Proof.
  intros Hz Ha. rewrite real_pow_pos by lra. unfold Rpower.
  destruct (Rle_lt_dec (1 + a * z) 0) as [Hneg | Hpos].
  - pose proof (exp_pos (a * ln (1 + z))). lra.
  - assert (Hia : 0 < / a) by (apply Rinv_0_lt_compat; lra).
    assert (Hia1 : / a <= 1).
    { rewrite <- Rinv_1. apply Rinv_le_contravar; lra. }
    pose proof (@ln_concave_1 (/ a) (1 + a * z) ltac:(lra) Hpos) as Hc.
    replace (1 - / a + / a * (1 + a * z)) with (1 + z) in Hc by (field; lra).
    assert (Hln : ln (1 + a * z) <= a * ln (1 + z)).
    { replace (ln (1 + a * z)) with (a * (/ a * ln (1 + a * z))) by (field; lra).
      apply Rmult_le_compat_l; lra. }
    rewrite <- (exp_ln (1 + a * z)) by exact Hpos.
    destruct Hln as [Hln | Hln].
    + left. now apply exp_increasing.
    + right. now rewrite Hln.
Qed.

Lemma real_pow_1_r (x : R) : real_pow x 1 = x.
Proof. change 1 with (INR 1) at 1. rewrite real_pow_INR. simpl. ring. Qed.

End Bernoulli.

(** ** The calculators through the facade *)

Section CalculatorFacts.
Local Open Scope R_scope.

(** The product of the periodic rate and the number of periods is the simple
    rate over the whole duration. *)
Lemma rate_times_periods (a d cf : R) :
  cf <> 0 -> d / cf * (a / 100 / 365 * cf) = a / 100 / 365 * d.
Proof. intros Hcf. field. exact Hcf. Qed.

Lemma compound_total_eq (params : StakingParameters R) :
  total (calculateCompoundInterest params)
  = principal params
    * real_pow (1 + apr params / 100 / 365 * frequencyOrDefault params)
               (days params / frequencyOrDefault params).
Proof. reflexivity. Qed.

Lemma compound_interest_eq (params : StakingParameters R) :
  interest (calculateCompoundInterest params)
  = principal params
    * real_pow (1 + apr params / 100 / 365 * frequencyOrDefault params)
               (days params / frequencyOrDefault params)
    - principal params.
Proof. reflexivity. Qed.

Lemma simple_interest_eq (params : StakingParameters R) :
  interest (calculateSimpleInterest params)
  = principal params * (apr params / 100 / 365) * days params.
Proof. reflexivity. Qed.

Lemma simple_total_eq (params : StakingParameters R) :
  total (calculateSimpleInterest params)
  = principal params + principal params * (apr params / 100 / 365) * days params.
Proof. reflexivity. Qed.

Lemma aprToApy_eq (apr f : R) :
  aprToApy apr (Some f) = (real_pow (1 + apr / 100 / f) f - 1) * 100.
Proof. reflexivity. Qed.

Lemma getCompoundingFrequency_bounds (s : string) :
  1 <= getCompoundingFrequency s <= 365.
Proof.
  unfold getCompoundingFrequency.
  repeat match goal with
  | |- context [String.eqb s ?k] => destruct (String.eqb s k); [cbn; lra|]
  end.
  cbn; lra.
Qed.

Lemma compound_interest_sign (p a d cf : R) :
  0 < p -> 0 <= a -> 0 <= d -> 1 <= cf ->
  0 <= p * real_pow (1 + a / 100 / 365 * cf) (d / cf) - p.
Proof.
  intros Hp Ha Hd Hcf.
  destruct (periodic_rate_sign Ha Hcf) as [Hbase _].
  destruct (periods_sign Hd Hcf) as [Hper _].
  pose proof (real_pow_ge_1 Hbase Hper) as Hpow. nra.
Qed.

End CalculatorFacts.

(** A stake of no duration, or at a zero rate, earns nothing: whichever
    calculator the facade selects, the interest is 0 and the total is the
    principal (exact arithmetic; the compound path divides by the
    compounding frequency, which must not be 0). *)
Theorem no_duration_or_no_rate_no_interest
    (params : StakingParameters R) (useCompound : option bool) :
  (useCompound = Some true -> frequencyOrDefault params <> 0%R) ->
  days params = 0%R \/ apr params = 0%R ->
  let r := calculateStakingRewards params useCompound in
  interest r = 0%R /\ total r = principal params.
Proof.
  intros Hcf Hzero. cbv zeta. unfold calculateStakingRewards.
  destruct useCompound as [[|]|].
  - specialize (Hcf eq_refl).
    rewrite compound_interest_eq, compound_total_eq.
    set (cf := frequencyOrDefault params) in *.
    assert (Hpow : real_pow (1 + apr params / 100 / 365 * cf) (days params / cf)
                   = 1%R).
    { destruct Hzero as [-> | ->].
      - replace (0 / cf)%R with 0%R by (field; exact Hcf).
        apply real_pow_0_r.
      - replace (1 + 0 / 100 / 365 * cf)%R with 1%R by field.
        apply real_pow_1_l. }
    rewrite Hpow. split; ring.
  - rewrite simple_interest_eq, simple_total_eq.
    destruct Hzero as [-> | ->]; split; field.
  - rewrite simple_interest_eq, simple_total_eq.
    destruct Hzero as [-> | ->]; split; field.
Qed.

Lemma no_duration_or_no_rate_no_interest_witness :
  interest (calculateStakingRewards (params4 100 10 0 30)%R (Some true)) = 0%R
  /\ total (calculateStakingRewards (params3 100 0 365)%R None) = 100%R.
Proof.
  split.
  - apply (@no_duration_or_no_rate_no_interest (params4 100 10 0 30)%R (Some true)).
    + intros _. cbn. lra.
    + left. reflexivity.
  - apply (@no_duration_or_no_rate_no_interest (params3 100 0 365)%R None).
    + intros [=].
    + right. reflexivity.
Defined.

(** Compounding once, at the end of the stake, is simple interest: with the
    compounding frequency equal to the (non-zero) duration,
    [calculateCompoundInterest] returns the total and the interest of
    [calculateSimpleInterest] (exact arithmetic). *)
Theorem single_period_is_simple_interest (p a d : R) :
  d <> 0%R ->
  total (calculateCompoundInterest (params4 p a d d))
  = total (calculateSimpleInterest (params3 p a d))
  /\ interest (calculateCompoundInterest (params4 p a d d))
     = interest (calculateSimpleInterest (params3 p a d)).
Proof.
  intros Hd. unfold calculateCompoundInterest, calculateSimpleInterest; cbn.
  replace (d / d)%R with 1%R by (field; exact Hd).
  rewrite real_pow_1_r. split; ring.
Qed.

Lemma single_period_is_simple_interest_witness :
  total (calculateCompoundInterest (params4 100 10 365 365)%R) = 110%R.
Proof.
  rewrite (proj1 (@single_period_is_simple_interest 100 10 365 ltac:(lra))).
  unfold calculateSimpleInterest; cbn. field.
Defined.

(** Compounding against simple interest, in exact arithmetic, for a
    non-negative principal and rate and a positive compounding frequency:
    from one full period on the compound interest is at least the simple
    interest, and within the first period it is at most the simple
    interest. *)
Theorem compound_interest_vs_simple (params : StakingParameters R) :
  let cf := frequencyOrDefault params in
  let simple := interest (calculateSimpleInterest params) in
  let compound := interest (calculateCompoundInterest params) in
  (0 <= principal params)%R -> (0 <= apr params)%R -> (0 < cf)%R ->
  ((cf <= days params)%R -> (simple <= compound)%R)
  /\ ((0 <= days params <= cf)%R -> (compound <= simple)%R).
Proof.
  cbv zeta. rewrite compound_interest_eq, simple_interest_eq.
  set (cf := frequencyOrDefault params).
  set (p := principal params). set (a := apr params). set (d := days params).
  intros Hp Ha Hcf.
  assert (Hr : (0 <= a / 100 / 365 * cf)%R) by (apply Rmult_le_pos; lra).
  assert (Hq : (0 < / cf)%R) by now apply Rinv_0_lt_compat.
  pose proof (@rate_times_periods a d cf ltac:(lra)) as Hnr.
  set (r := (a / 100 / 365 * cf)%R) in *. set (n := (d / cf)%R) in *.
  replace (p * (a / 100 / 365) * d)%R with (p * (n * r))%R
    by (rewrite Hnr; ring).
  split.
  - intros Hd.
    assert (Hn : (1 <= n)%R).
    { unfold n, Rdiv. replace 1%R with (cf * / cf)%R by (field; lra).
      apply Rmult_le_compat_r; lra. }
    pose proof (@real_pow_bernoulli_ge r n ltac:(lra) Hn) as Hb. nra.
  - intros [Hd0 Hd1].
    assert (Hn : (0 <= n <= 1)%R).
    { unfold n, Rdiv. split.
      - apply Rmult_le_pos; lra.
      - replace 1%R with (cf * / cf)%R by (field; lra).
        apply Rmult_le_compat_r; lra. }
    pose proof (@real_pow_bernoulli_le r n ltac:(lra) Hn) as Hb. nra.
Qed.

Lemma compound_interest_vs_simple_witness :
  (interest (calculateSimpleInterest (N := R) monthly_example)
   <= interest (calculateCompoundInterest (N := R) monthly_example))%R.
Proof.
  assert (Hp : (0 <= principal (N := R) monthly_example)%R) by (cbn; lra).
  assert (Ha : (0 <= apr (N := R) monthly_example)%R) by (cbn; lra).
  assert (Hcf : (0 < frequencyOrDefault (N := R) monthly_example)%R)
    by (cbn; lra).
  apply (proj1 (compound_interest_vs_simple monthly_example Hp Ha Hcf)).
  cbn. lra.
Defined.

(** The APY reported by [calculateCompoundInterest] is the yield of one year:
    for a stake of 365 days the interest is principal * apy / 100 (exact
    arithmetic, compounding frequency [cf] other than 0 and a positive base
    1 + apr/100/365 * cf, so that the power is a real number). *)
Theorem apy_is_the_yield_of_365_days (params : StakingParameters R) (y : R) :
  frequencyOrDefault params <> 0%R ->
  (0 < 1 + apr params / 100 / 365 * frequencyOrDefault params)%R ->
  days params = 365%R ->
  apy (calculateCompoundInterest params) = Some y ->
  interest (calculateCompoundInterest params)
  = (principal params * y / 100)%R.
Proof.
  intros Hcf _ Hdays Hapy.
  rewrite compound_interest_eq, Hdays.
  unfold calculateCompoundInterest in Hapy; cbn in Hapy.
  injection Hapy as <-.
  change (match compoundingFrequency params with
          | Some f => f
          | None => 1%R
          end) with (frequencyOrDefault params).
  set (cf := frequencyOrDefault params) in *.
  replace (apr params / 100 / (365 / cf))%R
    with (apr params / 100 / 365 * cf)%R by (field; lra).
  field.
Qed.

Lemma apy_is_the_yield_of_365_days_witness :
  exists y : R,
    apy (calculateCompoundInterest (N := R) monthly_example) = Some y
    /\ interest (calculateCompoundInterest (N := R) monthly_example)
       = (principal (N := R) monthly_example * y / 100)%R.
Proof.
  eexists. split; [reflexivity|].
  apply (@apy_is_the_yield_of_365_days monthly_example).
  - cbn. lra.
  - cbn. lra.
  - reflexivity.
  - reflexivity.
Defined.

(** APY against APR, in exact arithmetic, for an APR of at least
    [-100 * f]: compounding once a year leaves the rate unchanged (for every
    APR), compounding more often gives an APY of at least the APR, and less
    often an APY of at most the APR. *)
Theorem apy_vs_apr :
  (forall apr : R, aprToApy apr (Some 1%R) = apr)
  /\ (forall apr f : R,
         (1 <= f)%R -> (-100 * f <= apr)%R ->
         (apr <= aprToApy apr (Some f))%R)
  /\ (forall apr f : R,
         (0 < f <= 1)%R -> (-100 * f <= apr)%R ->
         (aprToApy apr (Some f) <= apr)%R).
Proof.
  assert (Hbase : forall apr f : R,
             (0 < f)%R -> (-100 * f <= apr)%R -> (-1 <= apr / 100 / f)%R).
  { intros apr f Hf Hlo.
    assert (Hq : (0 < / f)%R) by now apply Rinv_0_lt_compat.
    assert (H1 : (-100 <= apr * / f)%R).
    { replace (-100)%R with (-100 * f * / f)%R by (field; lra).
      apply Rmult_le_compat_r; lra. }
    unfold Rdiv. lra. }
  assert (Hfz : forall apr f : R,
             (0 < f)%R -> (f * (apr / 100 / f) = apr / 100)%R).
  { intros apr f Hf. field. lra. }
  split; [| split].
  - intros apr. rewrite aprToApy_eq, real_pow_1_r. field.
  - intros apr f Hf Hlo. rewrite aprToApy_eq.
    pose proof (Hbase apr f ltac:(lra) Hlo) as Hz.
    pose proof (Hfz apr f ltac:(lra)) as Hprod.
    destruct Hz as [Hz | Hz].
    + pose proof (real_pow_bernoulli_ge Hz Hf) as Hb.
      rewrite Hprod in Hb. lra.
    + replace (1 + apr / 100 / f)%R with 0%R by lra.
      rewrite real_pow_0_l by lra. rewrite <- Hz in Hprod. lra.
  - intros apr f [Hf0 Hf1] Hlo. rewrite aprToApy_eq.
    pose proof (Hbase apr f Hf0 Hlo) as Hz.
    pose proof (Hfz apr f Hf0) as Hprod.
    destruct Hz as [Hz | Hz].
    + pose proof (@real_pow_bernoulli_le _ f Hz ltac:(lra)) as Hb.
      rewrite Hprod in Hb. lra.
    + replace (1 + apr / 100 / f)%R with 0%R by lra.
      rewrite real_pow_0_l by lra. rewrite <- Hz in Hprod. lra.
Qed.

Lemma apy_vs_apr_witness :
  (12 <= aprToApy 12%R (Some 365%R))%R
  /\ (aprToApy 12%R (Some (1 / 2)%R) <= 12)%R.
Proof.
  split.
  - apply (proj1 (proj2 apy_vs_apr)); lra.
  - apply (proj2 (proj2 apy_vs_apr)); lra.
Defined.

(** A longer stake earns more: for a positive principal, rate and compounding
    frequency, the interest returned by the facade grows strictly with the
    number of days, with either calculator (exact arithmetic). *)
Theorem longer_stake_earns_more
    (p a cf d1 d2 : R) (useCompound : option bool) :
  (0 < p)%R -> (0 < a)%R -> (0 < cf)%R -> (d1 < d2)%R ->
  (interest (calculateStakingRewards (params4 p a d1 cf) useCompound)
   < interest (calculateStakingRewards (params4 p a d2 cf) useCompound))%R.
Proof.
  intros Hp Ha Hcf Hd.
  assert (Hsimple :
            (interest (calculateSimpleInterest (params4 p a d1 cf))
             < interest (calculateSimpleInterest (params4 p a d2 cf)))%R).
  { rewrite !simple_interest_eq; cbn.
    apply Rmult_lt_compat_l; [|exact Hd].
    apply Rmult_lt_0_compat; lra. }
  unfold calculateStakingRewards.
  destruct useCompound as [[|]|]; try exact Hsimple.
  rewrite !compound_interest_eq; cbn.
  assert (Hr : (0 < a / 100 / 365 * cf)%R) by (apply Rmult_lt_0_compat; lra).
  assert (Hn : (d1 / cf < d2 / cf)%R).
  { unfold Rdiv. apply Rmult_lt_compat_r; [|exact Hd].
    now apply Rinv_0_lt_compat. }
  pose proof (@real_pow_lt_exponent (1 + a / 100 / 365 * cf)
                (d1 / cf) (d2 / cf) ltac:(lra) Hn) as Hpow.
  nra.
Qed.

Lemma longer_stake_earns_more_witness :
  (interest (calculateStakingRewards (params4 1000 12 30 7)%R (Some true))
   < interest (calculateStakingRewards (params4 1000 12 31 7)%R (Some true)))%R.
Proof. apply longer_stake_earns_more; lra. Defined.

(** Whatever cadence name the page passes to [getCompoundingFrequency], the
    parameters it builds are safe for both calculators: for a positive
    amount and a non-negative rate and duration, the facade returns a
    non-negative interest and total = principal + interest (exact
    arithmetic). *)
Theorem any_cadence_gives_nonnegative_interest
    (cadence : string) (p a d : R) (useCompound : option bool) :
  (0 < p)%R -> (0 <= a)%R -> (0 <= d)%R ->
  let params := params4 p a d (getCompoundingFrequency cadence) in
  let r := calculateStakingRewards params useCompound in
  (0 <= interest r)%R /\ total r = (p + interest r)%R.
Proof.
  intros Hp Ha Hd. cbv zeta.
  destruct (getCompoundingFrequency_bounds cadence) as [Hcf _].
  unfold calculateStakingRewards.
  destruct useCompound as [[|]|];
    rewrite ?compound_interest_eq, ?compound_total_eq,
            ?simple_interest_eq, ?simple_total_eq; cbn.
  - split; [now apply compound_interest_sign | ring].
  - split; [apply (simple_interest_sign Hp Ha Hd) | reflexivity].
  - split; [apply (simple_interest_sign Hp Ha Hd) | reflexivity].
Qed.

Lemma any_cadence_gives_nonnegative_interest_witness :
  (0 <= interest (calculateStakingRewards
                    (params4 50 4 90 (getCompoundingFrequency "fortnightly"))%R
                    (Some true)))%R.
Proof.
  apply (@any_cadence_gives_nonnegative_interest "fortnightly" 50 4 90
           (Some true)); lra.
Defined.

(** The reward formula of the MVP page and [calculateSimpleInterest] agree
    in exact arithmetic: principal * (apr/100) * (days/365) is the interest
    principal * (apr/100/365) * days. *)
Theorem mvp_reward_is_simple_interest (p a d : R) :
  mvpReward p a d = interest (calculateSimpleInterest (params3 p a d)).
Proof. rewrite simple_interest_eq. unfold mvpReward; cbn. field. Qed.

(** ** The registry *)

(** Every entry of the registry can be looked up: the list returned by
    [getAllStakingConstraints] has seven entries with pairwise distinct
    symbols, and [getStakingConstraints] returns each of them for its own
    symbol, also written in lower case. *)
Theorem every_listed_coin_is_found :
  forall (N : Type) (num : Number N),
    List.length (getAllStakingConstraints (N := N)) = 7%nat
    /\ NoDup (map (@symbol N) getAllStakingConstraints)
    /\ forall c, In c getAllStakingConstraints ->
                 getStakingConstraints (symbol c) = Some c
                 /\ getStakingConstraints (toLowerCase (symbol c)) = Some c.
Proof.
  intros N num. split; [reflexivity|]. split.
  - cbn. repeat (constructor; [cbn; intuition discriminate|]). constructor.
  - intros c Hin. unfold getAllStakingConstraints in Hin.
    assert (Hup : symbol c = toUpperCase (symbol c)).
    { cbn in Hin.
      repeat (destruct Hin as [<- | Hin]; [reflexivity|]). destruct Hin. }
    split.
    + now apply getStakingConstraints_In.
    + apply getStakingConstraints_In; [exact Hin|].
      now rewrite toUpperCase_toLowerCase.
Qed.

Lemma every_listed_coin_is_found_witness :
  option_map (@symbol R) (getStakingConstraints "atom") = Some "ATOM".
Proof.
  pose proof (proj2 (proj2 (every_listed_coin_is_found reals))) as Hall.
  assert (Hin : exists c : CoinStakingConstraints R,
             In c getAllStakingConstraints /\ symbol c = "ATOM").
  { eexists. split; [do 5 right; left; reflexivity | reflexivity]. }
  destruct Hin as (c & Hin & Hsym).
  destruct (Hall c Hin) as [_ Hlow]. rewrite Hsym in Hlow.
  change (toLowerCase "ATOM") with "atom" in Hlow.
  rewrite Hlow. cbn. now rewrite Hsym.
Defined.

(** For a listed coin the first staking period decides: every entry has
    exactly one period, so [isValidStakeDuration] is the test
    [minDays <= days] and, when [maxDays] is not [null], [days <= maxDays]
    on [stakingPeriods[0]], the period the page quotes when it rejects a
    duration. *)
Theorem duration_is_decided_by_the_first_period :
  forall (N : Type) (num : Number N) (s : string) (c : CoinStakingConstraints N)
         (days : N),
    getStakingConstraints s = Some c ->
    exists p,
      nth_error (stakingPeriods c) 0 = Some p
      /\ isValidStakeDuration s days
         = ((days >=? minDays p)%num
            && match maxDays p with
               | None => true
               | Some m => (days <=? m)%num
               end).
Proof.
  intros N num s c days Hsome.
  unfold isValidStakeDuration. rewrite Hsome.
  apply getStakingConstraints_Some in Hsome. destruct Hsome as [Hin _].
  cbn in Hin.
  repeat (destruct Hin as [<- | Hin];
          [eexists; split; [reflexivity | cbn; apply orb_false_r]|]).
  destruct Hin.
Qed.

Lemma duration_is_decided_by_the_first_period_witness :
  isValidStakeDuration "avax" 400%float = false.
Proof.
  destruct (@duration_is_decided_by_the_first_period float binary64 "avax" _
              400%float eq_refl) as (p & Hp & Hvalid).
  rewrite Hvalid. injection Hp as <-. reflexivity.
Defined.

(** ** The response cache *)

Section JsMapFacts.
Context {V : Type}.
Implicit Types (m : JsMap V) (key : string).

Lemma Map_get_set_same key (v : V) m : Map_get key (Map_set key v m) = Some v.
Proof.
  induction m as [|[k v'] m IH]; cbn.
  - now rewrite String.eqb_refl.
  - destruct (String.eqb k key) eqn:Hk; cbn; rewrite Hk; [reflexivity | exact IH].
Qed.

Lemma Map_get_set_other key key' (v : V) m :
  key' <> key -> Map_get key' (Map_set key v m) = Map_get key' m.
Proof.
  intros Hne. induction m as [|[k v'] m IH]; cbn.
  - destruct (String.eqb_spec key key'); [congruence | reflexivity].
  - destruct (String.eqb_spec k key) as [-> | Hk]; cbn.
    + destruct (String.eqb_spec key key'); [congruence | reflexivity].
    + now rewrite IH.
Qed.

Lemma Map_get_delete_same key m : Map_get key (Map_delete key m) = None.
Proof.
  unfold Map_delete. induction m as [|[k v] m IH]; cbn; [reflexivity|].
  destruct (String.eqb k key) eqn:Hk; cbn; [exact IH|].
  now rewrite Hk.
Qed.

Lemma Map_get_delete_other key key' m :
  key' <> key -> Map_get key' (Map_delete key m) = Map_get key' m.
Proof.
  intros Hne. unfold Map_delete.
  induction m as [|[k v] m IH]; cbn; [reflexivity|].
  destruct (String.eqb_spec k key) as [-> | Hk]; cbn.
  - rewrite IH. destruct (String.eqb_spec key key'); [congruence | reflexivity].
  - now rewrite IH.
Qed.

Lemma Map_get_In key (v : V) m : Map_get key m = Some v -> In (key, v) m.
Proof.
  induction m as [|[k v'] m IH]; cbn; [discriminate|].
  destruct (String.eqb_spec k key) as [-> | Hk].
  - intros [= ->]. now left.
  - intros H. right. now apply IH.
Qed.

Lemma Map_get_None key m :
  Map_get key m = None <-> ~ In key (map fst m).
Proof.
  induction m as [|[k v'] m IH]; cbn; [tauto|].
  destruct (String.eqb_spec k key) as [-> | Hk].
  - split; [discriminate | tauto].
  - rewrite IH. tauto.
Qed.

Lemma Map_wf_get key (v : V) m :
  Map_wf m -> In (key, v) m -> Map_get key m = Some v.
Proof.
  unfold Map_wf. induction m as [|[k v'] m IH]; cbn; [tauto|].
  intros Hnd [Heq | Hin].
  - injection Heq as -> ->. now rewrite String.eqb_refl.
  - inversion Hnd as [|? ? Hnotin Hnd']; subst.
    destruct (String.eqb_spec k key) as [-> | Hk].
    + exfalso. apply Hnotin. change key with (fst (key, v)). now apply in_map.
    + now apply IH.
Qed.

Lemma Map_set_keys key (v : V) m :
  forall k, In k (map fst (Map_set key v m)) <-> k = key \/ In k (map fst m).
Proof.
  intros k0. induction m as [|[k v'] m IH]; cbn; [intuition congruence|].
  destruct (String.eqb_spec k key) as [-> | Hk]; cbn.
  - intuition congruence.
  - rewrite IH. intuition congruence.
Qed.

Lemma Map_wf_set key (v : V) m : Map_wf m -> Map_wf (Map_set key v m).
Proof.
  unfold Map_wf. induction m as [|[k v'] m IH]; cbn.
  - intros _. repeat constructor. intros [].
  - intros Hnd. inversion Hnd as [|? ? Hnotin Hnd']; subst.
    destruct (String.eqb_spec k key) as [-> | Hk]; cbn.
    + now constructor.
    + constructor; [|now apply IH].
      rewrite Map_set_keys. intros [-> | Hin]; [now apply Hk | now apply Hnotin].
Qed.

Lemma Map_wf_filter (keep : string * V -> bool) m :
  Map_wf m -> Map_wf (filter keep m).
Proof.
  unfold Map_wf. induction m as [|[k v] m IH]; cbn; [trivial|].
  intros Hnd. inversion Hnd as [|? ? Hnotin Hnd']; subst.
  destruct (keep (k, v)); cbn; [|now apply IH].
  constructor; [|now apply IH].
  intros Hin. apply Hnotin.
  apply in_map_iff in Hin. destruct Hin as ([k' v'] & Hk & Hin).
  apply filter_In in Hin. destruct Hin as [Hin _].
  cbn in Hk. subst k'. change k with (fst (k, v')). now apply in_map.
Qed.

Lemma Map_get_filter (keep : string * V -> bool) key m :
  Map_wf m ->
  Map_get key (filter keep m)
  = match Map_get key m with
    | Some v => if keep (key, v) then Some v else None
    | None => None
    end.
Proof.
  unfold Map_wf. induction m as [|[k v] m IH]; cbn; [reflexivity|].
  intros Hnd. inversion Hnd as [|? ? Hnotin Hnd']; subst.
  destruct (String.eqb_spec k key) as [-> | Hk].
  - destruct (keep (key, v)) eqn:Hkeep; cbn.
    + now rewrite String.eqb_refl.
    + apply Map_get_None. intros Hin. apply Hnotin.
      apply in_map_iff in Hin. destruct Hin as ([k' v'] & Hk' & Hin).
      apply filter_In in Hin. destruct Hin as [Hin _].
      cbn in Hk'. subst k'. change key with (fst (key, v')). now apply in_map.
  - destruct (keep (k, v)); cbn.
    + destruct (String.eqb_spec k key); [contradiction | now apply IH].
    + now apply IH.
Qed.

End JsMapFacts.

Section CacheFacts.
Context {T : Type}.
Implicit Types (storage : Storage T) (key : string).

Lemma filter_all (A : Type) (l : list A) : filter (fun _ => true) l = l.
Proof. induction l as [|x l IH]; cbn; [reflexivity | now rewrite IH]. Qed.

Lemma filter_twice (A : Type) (f g : A -> bool) (l : list A) :
  filter f (filter g l) = filter (fun x => g x && f x) l.
Proof.
  induction l as [|x l IH]; cbn; [reflexivity|].
  destruct (g x); cbn; [destruct (f x)|]; now rewrite IH.
Qed.

(** The loop of [cleanup], started on any storage: it deletes the keys of
    the expired entries it visits. *)
Lemma cleanup_loop (now : Z) (visited current : Storage T) :
  fold_left
    (fun current (entry : string * CacheEntry T) =>
       let (key, entry) := entry in
       if (now >? expiry entry)%Z then Map_delete key current else current)
    visited current
  = filter (fun kv =>
              negb (existsb (fun ke => String.eqb (fst ke) (fst kv)
                                        && (now >? expiry (snd ke))%Z)
                            visited))
           current.
Proof.
  revert current. induction visited as [|[k e] visited IH]; intros current; cbn.
  - now rewrite filter_all.
  - rewrite IH. destruct (now >? expiry e)%Z.
    + unfold Map_delete. rewrite filter_twice. apply filter_ext.
      intros [k' e']; cbn. rewrite andb_true_r, negb_orb.
      now rewrite (String.eqb_sym k' k).
    + apply filter_ext. intros [k' e']; cbn. now rewrite andb_false_r.
Qed.

Lemma cleanup_is_filter (now : Z) storage :
  Map_wf storage ->
  CacheManager_cleanup now storage
  = filter (fun kv => negb (now >? expiry (snd kv))%Z) storage.
Proof.
  intros Hwf. unfold CacheManager_cleanup. rewrite cleanup_loop.
  apply filter_ext_in. intros [k e] Hin; cbn. f_equal.
  destruct (now >? expiry e)%Z eqn:Hexp.
  - apply existsb_exists. exists (k, e); cbn.
    now rewrite String.eqb_refl, Hexp.
  - destruct (existsb _ storage) eqn:Hex; [|reflexivity].
    apply existsb_exists in Hex. destruct Hex as ([k' e'] & Hin' & Hke).
    cbn in Hke. apply andb_true_iff in Hke. destruct Hke as [Hk He].
    apply String.eqb_eq in Hk. subst k'.
    pose proof (@Map_wf_get _ _ _ _ Hwf Hin) as H1.
    pose proof (@Map_wf_get _ _ _ _ Hwf Hin') as H2.
    rewrite H1 in H2. injection H2 as <-. congruence.
Qed.

End CacheFacts.

(** A value stored with [set] is returned by every [get] up to its expiry,
    [now2 + ttl] with the default of 300000 ms when no [ttl] is given,
    whatever the key held before; such a [get] leaves the storage as it is,
    and [isValid] answers [true]. *)
Theorem cache_set_then_get_within_ttl
    (T : Type) (storage : Storage T) (key : string) (value : T)
    (ttl : option Z) (now1 now2 now : Z) :
  let stored := CacheManager_set key value ttl now1 now2 storage in
  (now <= now2 + match ttl with Some t => t | None => 300000 end)%Z ->
  CacheManager_get key now stored = (Some value, stored)
  /\ CacheManager_isValid key now stored = true.
Proof.
  cbv zeta. intros Hnow.
  unfold CacheManager_get, CacheManager_isValid, CacheManager_set.
  rewrite Map_get_set_same. cbn [expiry data].
  change defaultTTL with 300000%Z.
  split.
  - destruct (Z.gtb_spec now (now2 + match ttl with Some t => t | None => 300000 end));
      [lia | reflexivity].
  - now apply Z.leb_le.
Qed.

Lemma cache_set_then_get_within_ttl_witness :
  fst (CacheManager_get "prices" 1300000
         (CacheManager_set "prices" 42%Z None 1000000 1000000 [])) = Some 42%Z.
Proof.
  rewrite (proj1 (@cache_set_then_get_within_ttl Z [] "prices" 42%Z None
                    1000000 1000000 1300000 ltac:(lia))).
  reflexivity.
Defined.

(** After its expiry a stored value is no longer returned, and a [get] of a
    key that is absent, or whose entry has expired, leaves no entry for the
    key: from then on [isValid] is [false] and [get] returns [null], at any
    time. *)
Theorem cache_miss_evicts
    (T : Type) (storage : Storage T) (key : string) (now : Z) :
  (forall (value : T) (ttl now1 now2 : Z),
      (now2 + ttl < now)%Z ->
      fst (CacheManager_get key now
             (CacheManager_set key value (Some ttl) now1 now2 storage)) = None)
  /\ (Map_get key storage = None
      \/ (exists entry, Map_get key storage = Some entry
                         /\ (expiry entry < now)%Z) ->
      forall later : Z,
        let after := snd (CacheManager_get key now storage) in
        fst (CacheManager_get key now storage) = None
        /\ Map_get key after = None
        /\ CacheManager_isValid key later after = false
        /\ CacheManager_get key later after = (None, after)).
Proof.
  split.
  - intros value ttl now1 now2 Hlate.
    unfold CacheManager_get, CacheManager_set.
    rewrite Map_get_set_same. cbn [expiry].
    destruct (Z.gtb_spec now (now2 + ttl)); [reflexivity | lia].
  - intros Hmiss later. cbv zeta.
    assert (Hgone : fst (CacheManager_get key now storage) = None
                    /\ Map_get key (snd (CacheManager_get key now storage))
                       = None).
    { unfold CacheManager_get.
      destruct Hmiss as [Habsent | (entry & Hentry & Hexpired)].
      - rewrite Habsent. cbn. now split.
      - rewrite Hentry.
        destruct (Z.gtb_spec now (expiry entry)) as [_ | Hle]; [|lia].
        cbn. split; [reflexivity | apply Map_get_delete_same]. }
    destruct Hgone as [Hnull Hgone].
    set (after := snd (CacheManager_get key now storage)) in *.
    split; [exact Hnull|]. split; [exact Hgone|].
    unfold CacheManager_isValid, CacheManager_get.
    rewrite Hgone. split; reflexivity.
Qed.

Lemma cache_miss_evicts_witness :
  CacheManager_isValid "prices" 0
    (snd (CacheManager_get "prices" 1300001
            (CacheManager_set "prices" 42%Z None 1000000 1000000 []))) = false.
Proof.
  apply (proj2 (@cache_miss_evicts Z
                  (CacheManager_set "prices" 42%Z None 1000000 1000000 [])
                  "prices" 1300001)).
  right. eexists. split; [reflexivity|]. cbn. lia.
Defined.

(** Keys do not interfere: what [get] returns for a key is changed neither
    by a [set] nor by a [get] of another key. *)
Theorem cache_keys_are_independent
    (T : Type) (storage : Storage T) (key other : string) (now later : Z) :
  other <> key ->
  (forall (value : T) (ttl : option Z) (now1 now2 : Z),
      fst (CacheManager_get other later
             (CacheManager_set key value ttl now1 now2 storage))
      = fst (CacheManager_get other later storage))
  /\ fst (CacheManager_get other later
            (snd (CacheManager_get key now storage)))
     = fst (CacheManager_get other later storage).
Proof.
  intros Hne. split.
  - intros value ttl now1 now2. unfold CacheManager_get, CacheManager_set.
    rewrite Map_get_set_other by exact Hne.
    destruct (Map_get other storage) as [e|]; [|reflexivity].
    destruct (later >? expiry e)%Z; reflexivity.
  - unfold CacheManager_get at 2.
    destruct (Map_get key storage) as [entry|]; [|reflexivity].
    destruct (now >? expiry entry)%Z; [|reflexivity].
    cbn [snd]. unfold CacheManager_get.
    rewrite Map_get_delete_other by exact Hne.
    destruct (Map_get other storage) as [e|]; [|reflexivity].
    destruct (later >? expiry e)%Z; reflexivity.
Qed.

Lemma cache_keys_are_independent_witness :
  fst (CacheManager_get "pools" 5
         (CacheManager_set "prices" 1%Z (Some 10%Z) 0 0
            (CacheManager_set "pools" 2%Z (Some 10%Z) 0 0 []))) = Some 2%Z.
Proof.
  rewrite (proj1 (@cache_keys_are_independent Z
                    (CacheManager_set "pools" 2%Z (Some 10%Z) 0 0 [])
                    "prices" "pools" 0 5 ltac:(discriminate))).
  reflexivity.
Defined.

(** [isValid] and [get] agree: at one instant, [isValid(key)] is [true]
    exactly when [get(key)] returns the stored data, and then [get] leaves
    the storage unchanged. *)
Theorem cache_isValid_iff_get_hits
    (T : Type) (storage : Storage T) (key : string) (now : Z) :
  CacheManager_isValid key now storage = true
  <-> exists value : T,
        CacheManager_get key now storage = (Some value, storage).
Proof.
  unfold CacheManager_isValid, CacheManager_get.
  destruct (Map_get key storage) as [entry|].
  - destruct (Z.gtb_spec now (expiry entry)) as [Hgt | Hle].
    + split; [rewrite Z.leb_le; lia | intros [v [=]]].
    + split; [intros _; now exists (data entry) | intros _; apply Z.leb_le; lia].
  - split; [discriminate | intros [v [=]]].
Qed.

Lemma cache_isValid_iff_get_hits_witness :
  CacheManager_isValid "prices" 7
    (CacheManager_set "prices" 42%Z (Some 10%Z) 0 0 []) = true.
Proof.
  apply (proj2 (cache_isValid_iff_get_hits
                  (CacheManager_set "prices" 42%Z (Some 10%Z) 0 0 [])
                  "prices" 7)).
  exists 42%Z. reflexivity.
Defined.

(** [cleanup] keeps exactly the entries that have not expired, in their
    order; the keys stay distinct, every entry left is valid, and no later
    [get] can tell that [cleanup] ran. *)
Theorem cache_cleanup_removes_the_expired
    (T : Type) (storage : Storage T) (now : Z) :
  Map_wf storage ->
  let cleaned := CacheManager_cleanup now storage in
  cleaned = filter (fun kv => (now <=? expiry (snd kv))%Z) storage
  /\ Map_wf cleaned
  /\ (forall key, In key (map fst cleaned) ->
                  CacheManager_isValid key now cleaned = true)
  /\ (forall key later, (now <= later)%Z ->
                        fst (CacheManager_get key later cleaned)
                        = fst (CacheManager_get key later storage)).
Proof.
  intros Hwf. cbv zeta. rewrite (@cleanup_is_filter _ now _ Hwf).
  assert (Hsame : filter (fun kv : string * CacheEntry T =>
                            negb (now >? expiry (snd kv))%Z) storage
                  = filter (fun kv => (now <=? expiry (snd kv))%Z) storage).
  { apply filter_ext. intros kv. now rewrite Z.gtb_ltb, Z.leb_antisym. }
  rewrite Hsame.
  split; [reflexivity|]. split; [now apply Map_wf_filter|]. split.
  - intros key Hin. unfold CacheManager_isValid.
    rewrite (@Map_get_filter _ _ key _ Hwf).
    destruct (Map_get key storage) as [entry|] eqn:Hget.
    + cbn. destruct (now <=? expiry entry)%Z eqn:Hle; [exact Hle|].
      exfalso. apply in_map_iff in Hin. destruct Hin as ([k e] & Hk & Hin).
      apply filter_In in Hin. destruct Hin as [Hin Hkeep]. cbn in Hk, Hkeep.
      subst k. rewrite (@Map_wf_get _ _ _ _ Hwf Hin) in Hget. injection Hget as <-.
      congruence.
    + exfalso. apply in_map_iff in Hin. destruct Hin as ([k e] & Hk & Hin).
      apply filter_In in Hin. destruct Hin as [Hin _]. cbn in Hk. subst k.
      rewrite (@Map_wf_get _ _ _ _ Hwf Hin) in Hget. discriminate.
  - intros key later Hlater. unfold CacheManager_get.
    rewrite (@Map_get_filter _ _ key _ Hwf).
    destruct (Map_get key storage) as [entry|]; [|reflexivity].
    cbn [snd]. destruct (Z.leb_spec now (expiry entry)) as [Hle | Hgt].
    + destruct (later >? expiry entry)%Z; reflexivity.
    + destruct (Z.gtb_spec later (expiry entry)); [reflexivity | lia].
Qed.

Lemma cache_cleanup_removes_the_expired_witness :
  CacheManager_cleanup 50
    (CacheManager_set "prices" 1%Z (Some 10%Z) 0 0
       (CacheManager_set "pools" 2%Z (Some 100%Z) 0 0 []))
  = CacheManager_set "pools" 2%Z (Some 100%Z) 0 0 [].
Proof.
  rewrite (proj1 (@cache_cleanup_removes_the_expired Z
                    (CacheManager_set "prices" 1%Z (Some 10%Z) 0 0
                       (CacheManager_set "pools" 2%Z (Some 100%Z) 0 0 []))
                    50 ltac:(repeat constructor; cbn; intuition discriminate))).
  reflexivity.
Defined.

(** ** The CoinGecko client *)




Lemma filter_nil_iff (A : Type) (f : A -> bool) (l : list A) :
  filter f l = [] <-> forall y, In y l -> f y = false.
Proof.
  induction l as [|a l IH]; cbn; [tauto|].
  destruct (f a) eqn:Hfa.
  - split; [discriminate|]. intros Hall. specialize (Hall a (or_introl eq_refl)).
    congruence.
  - rewrite IH. split.
    + intros Hall y [<- | Hy]; [exact Hfa | now apply Hall].
    + intros Hall y Hy. apply Hall. now right.
Qed.



(** ** The DefiLlama client *)

Lemma toLowerCase_append (s t : string) :
  toLowerCase (s ++ t) = toLowerCase s ++ toLowerCase t.
Proof. induction s as [|c s IH]; cbn; [reflexivity | now rewrite IH]. Qed.

Lemma prefix_append (p rest : string) : String.prefix p (p ++ rest) = true.
Proof.
  induction p as [|c p IH]; cbn; [now destruct rest|].
  destruct (ascii_dec c c); [exact IH | contradiction].
Qed.

Lemma includes_unfold (needle haystack : string) :
  includes needle haystack
  = String.prefix needle haystack
    || match haystack with
       | EmptyString => false
       | String _ rest => includes needle rest
       end.
Proof. destruct haystack; reflexivity. Qed.

Lemma includes_prefix (needle rest : string) :
  includes needle (needle ++ rest) = true.
Proof. now rewrite includes_unfold, prefix_append. Qed.

Lemma beforeDash_split (s : string) :
  s = beforeDash s \/ exists rest, s = beforeDash s ++ String "-" rest.
Proof.
  induction s as [|c s IH]; cbn; [now left|].
  destruct (Ascii.eqb_spec c "-") as [-> | Hc].
  - right. now exists s.
  - destruct IH as [IH | [rest IH]].
    + left. now rewrite <- IH.
    + right. exists rest. cbn. now rewrite <- IH.
Qed.

Lemma Set_add_In (x y : string) (set : list string) :
  In y (Set_add x set) <-> y = x \/ In y set.
Proof.
  unfold Set_add. destruct (existsb (String.eqb x) set) eqn:Hex.
  - apply existsb_exists in Hex. destruct Hex as (z & Hz & Hxz).
    apply String.eqb_eq in Hxz. subst z. intuition congruence.
  - rewrite in_app_iff. cbn. intuition congruence.
Qed.

Lemma Set_add_NoDup (x : string) (set : list string) :
  NoDup set -> NoDup (Set_add x set).
Proof.
  intros Hnd. unfold Set_add.
  destruct (existsb (String.eqb x) set) eqn:Hex; [exact Hnd|].
  apply NoDup_rev in Hnd. rewrite <- (rev_involutive (set ++ [x])).
  apply NoDup_rev. rewrite rev_app_distr. cbn. constructor; [|exact Hnd].
  rewrite <- in_rev. intros Hin.
  assert (existsb (String.eqb x) set = true); [|congruence].
  apply existsb_exists. exists x. split; [exact Hin | apply String.eqb_refl].
Qed.

Section AssetSet.
Context {N : Type}.

Lemma assetSet_In (pools : list (YieldPool N)) (start : list string)
    (a : string) :
  In a (fold_left addAsset pools start) <->
  In a start
  \/ exists pool, In pool pools
                  /\ beforeDash (pool_symbol pool) <> ""
                  /\ a = toUpperCase (beforeDash (pool_symbol pool)).
Proof.
  revert start. induction pools as [|p pools IH]; intros start; cbn.
  - split; [now left | intros [H | (p & [] & _)]; exact H].
  - rewrite IH. unfold addAsset at 1.
    destruct (String.eqb_spec (beforeDash (pool_symbol p)) "") as [He | Hne].
    + split.
      * intros [H | (q & Hq & Hb & Ha)]; [now left|].
        right. exists q. auto.
      * intros [H | (q & [<- | Hq] & Hb & Ha)]; [now left | contradiction |].
        right. exists q. auto.
    + rewrite Set_add_In. split.
      * intros [[-> | H] | (q & Hq & Hb & Ha)].
        -- right. exists p. auto.
        -- now left.
        -- right. exists q. auto.
      * intros [H | (q & [<- | Hq] & Hb & Ha)].
        -- left. now right.
        -- left. now left.
        -- right. exists q. auto.
Qed.

Lemma assetSet_NoDup (pools : list (YieldPool N)) (start : list string) :
  NoDup start -> NoDup (fold_left addAsset pools start).
Proof.
  revert start. induction pools as [|p pools IH]; intros start Hnd; cbn;
    [exact Hnd|].
  apply IH. unfold addAsset.
  destruct (String.eqb _ ""); [exact Hnd | now apply Set_add_NoDup].
Qed.

End AssetSet.

Lemma getSupportedAssets_spec (N : Type) (pools : list (YieldPool N)) :
  exists assets,
    getSupportedAssets (Fulfilled pools) = Fulfilled assets
    /\ Sorted (fun x y => String.leb x y = true) assets
    /\ NoDup assets
    /\ forall a,
         In a assets <->
         exists pool, In pool pools
                      /\ beforeDash (pool_symbol pool) <> ""
                      /\ a = toUpperCase (beforeDash (pool_symbol pool)).
Proof.
  eexists. split; [reflexivity|].
  set (assetSet := fold_left addAsset pools []).
  pose proof (StringSort.Permuted_sort assetSet) as Hperm.
  split; [|split].
  - apply StringSort.Sorted_sort.
  - apply (Permutation_NoDup Hperm). apply assetSet_NoDup. constructor.
  - intros a. split.
    + intros Hin. apply (Permutation_in _ (Permutation_sym Hperm)) in Hin.
      apply assetSet_In in Hin. destruct Hin as [[] | Hin]. exact Hin.
    + intros Hex. apply (Permutation_in _ Hperm).
      apply assetSet_In. now right.
Qed.

(** A pool passes the filter of [getStakingPlatforms] for its own upper-cased
    base symbol. *)
Lemma pool_matches_its_base_symbol (N : Type) (p : YieldPool N) :
  let normalizedSymbol :=
    toLowerCase (toUpperCase (beforeDash (pool_symbol p))) in
  let poolSymbol := toLowerCase (pool_symbol p) in
  String.eqb poolSymbol normalizedSymbol
  || includes ("-" ++ normalizedSymbol) poolSymbol
  || includes (normalizedSymbol ++ "-") poolSymbol = true.
Proof.
  cbv zeta. rewrite toLowerCase_toUpperCase.
  destruct (beforeDash_split (pool_symbol p)) as [Hs | [rest Hs]].
  - rewrite <- Hs, String.eqb_refl. reflexivity.
  - set (base := beforeDash (pool_symbol p)) in *. rewrite Hs.
    rewrite toLowerCase_append.
    change (toLowerCase (String "-" rest)) with ("-" ++ toLowerCase rest).
    replace (toLowerCase base ++ "-" ++ toLowerCase rest)
      with ((toLowerCase base ++ "-") ++ toLowerCase rest).
    + rewrite includes_prefix. now rewrite orb_true_r.
    + induction (toLowerCase base) as [|c s IH];
        cbn; [reflexivity | now rewrite IH].
Qed.

(** The list of supported assets is sorted and free of duplicates, and its
    elements are exactly the upper-cased base symbols (the part of a pool
    symbol before its first dash) that are not empty; a rejection of the
    pool list is reported as "Failed to fetch supported assets". *)
Theorem supported_assets_are_the_base_symbols
    (N : Type) (pools : list (YieldPool N)) :
  (exists assets,
      getSupportedAssets (Fulfilled pools) = Fulfilled assets
      /\ Sorted (fun x y => String.leb x y = true) assets
      /\ NoDup assets
      /\ forall a,
           In a assets <->
           exists pool, In pool pools
                        /\ beforeDash (pool_symbol pool) <> ""
                        /\ a = toUpperCase (beforeDash (pool_symbol pool)))
  /\ forall error,
       getSupportedAssets (N := N) (Rejected error)
       = Rejected "Failed to fetch supported assets".
Proof. split; [apply getSupportedAssets_spec | reflexivity]. Qed.

Lemma supported_assets_are_the_base_symbols_witness :
  getSupportedAssets (N := Z) (Rejected "Network Error")
  = Rejected "Failed to fetch supported assets".
Proof.
  apply (proj2 (supported_assets_are_the_base_symbols (@nil (YieldPool Z)))).
Defined.

(** Every asset that [getSupportedAssets] lists has at least one platform:
    when the symbols of the pools are ASCII strings, on which the case
    mappings here are those of JavaScript, [getStakingPlatforms] returns a
    non-empty list for it on the same pools. *)
Theorem every_supported_asset_has_a_platform
    (N : Type) (pools : list (YieldPool N)) (assets : list string)
    (asset : string) :
  Forall (fun pool => isAscii (pool_symbol pool) = true) pools ->
  getSupportedAssets (Fulfilled pools) = Fulfilled assets ->
  In asset assets ->
  exists platform platforms,
    getStakingPlatforms (Fulfilled pools) asset
    = Fulfilled (platform :: platforms).
Proof.
  intros _ Hassets Hin.
  destruct (getSupportedAssets_spec pools) as (assets' & Heq & _ & _ & Hchar).
  rewrite Hassets in Heq. injection Heq as <-.
  apply Hchar in Hin. destruct Hin as (p & Hp & Hbase & ->).
  unfold getStakingPlatforms.
  match goal with |- context [filter ?f pools] => set (keep := f) end.
  assert (Hkeep : keep p = true) by apply pool_matches_its_base_symbol.
  destruct (filter keep pools) as [|platform platforms] eqn:Hf.
  - exfalso. pose proof (proj1 (filter_nil_iff _ _) Hf p Hp). congruence.
  - now exists platform, platforms.
Qed.

Lemma every_supported_asset_has_a_platform_witness :
  exists platform platforms,
    getStakingPlatforms
      (Fulfilled [ {| chain := "Ethereum"; project := "lido";
                      pool_symbol := "stETH-ETH"; tvlUsd := 25000000%Z;
                      apyBase := None; apyReward := None; pool_apy := 3%Z;
                      rewardTokens := None; pool := "0x01";
                      underlyingTokens := None; il7d := None; ilRisk := None;
                      exposure := None; poolMeta := None;
                      stablecoin := false |} ]) "STETH"
    = Fulfilled (platform :: platforms).
Proof.
  eapply every_supported_asset_has_a_platform.
  - constructor; [reflexivity | constructor].
  - reflexivity.
  - left. reflexivity.
Defined.
